(** * dirhypernets: degree distributions and network persistence

    A shallow embedding of [dirhypernets/distribution.py] and
    [dirhypernets/functions.py].

    Conventions of the embedding.
    - A degree sequence is a [list nat]: degrees are the node degrees
      networkx reports, non-negative Python integers.
    - A Python exception is a value of [exn]; a call that may raise
      returns a [result].
    - numpy's float64 values are read in two ways.  Modules [np] and
      [distribution] compute with exact numbers: frequencies and
      linearly spaced samples are rationals ([Q], compared with [Qeq]);
      a geometrically spaced sample is kept symbolically as
      [start * (stop/start)^t] with a rational exponent [t], and is
      compared with integers exactly (see [geo_val] for its real value).
      Module [f64] computes the sample points and bin boundaries as
      float64 does, every operation rounded to 53 bits, with the results
      of [log10] and [power] left open.  The exact reading serves for
      what does not depend on rounding (the counterexamples, the
      monotonicity of the cumulative distribution, constant sequences);
      what is said of the position of a sample or a boundary against a
      degree is said of [f64].
    - The file system is a finite map from path strings to nodes. *)

From Stdlib Require Import ZArith QArith Qreals Reals Lia Psatz List String Ascii.
From Stdlib Require Import Floats.
From stdpp Require Import gmap strings list fin_maps pretty sorting.

Set Default Proof Using "Type".

(** ** Exceptions and results *)

Inductive exn : Type :=
| ValueError
| IndexError
| KeyError
| TypeError
| FileNotFoundError
| FileExistsError
| NotADirectoryError
| IsADirectoryError
| EmptyDataError
| Exception (msg : string).

Inductive result (A : Type) : Type :=
| Ok (a : A)
| Raise (e : exn).
Arguments Ok {A} a.
Arguments Raise {A} e.

Global Instance result_ret : MRet result := fun A a => Ok a.
Global Instance result_bind : MBind result := fun A B k r =>
  match r with
  | Ok a => k a
  | Raise e => Raise e
  end.

(** ** Python builtins *)

Module py.

(** [min(l)] and [max(l)]: [ValueError] on an empty sequence. *)
Definition min (l : list nat) : result nat :=
  match l with
  | [] => Raise ValueError
  | d :: ds => Ok (fold_right Nat.min d ds)
  end.

Definition max (l : list nat) : result nat :=
  match l with
  | [] => Raise ValueError
  | d :: ds => Ok (fold_right Nat.max d ds)
  end.

End py.

(** ** numpy *)

Definition Qnat (n : nat) : Q := inject_Z (Z.of_nat n).

Module np.

(** [np.arange(n)] *)
Definition arange (n : nat) : list nat := seq 0 n.

(** [np.bincount(x)]: entry [v] counts the occurrences of [v] in [x], for
    [v] in [0 .. max(x)]; the empty input gives the empty table.  (numpy
    rejects negative entries; the type [nat] has none.) *)
Definition bincount (x : list nat) : list nat :=
  match x with
  | [] => []
  | _ => map (count_occ Nat.eq_dec x) (seq 0 (S (list_max x)))
  end.

(** [np.nonzero(a)[0]]: the positions of the entries that differ from 0,
    ascending. *)
Fixpoint nonzero_from (i : nat) (a : list Q) : list nat :=
  match a with
  | [] => []
  | q :: a' =>
      if Qeq_bool q 0 then nonzero_from (S i) a' else i :: nonzero_from (S i) a'
  end.

Definition nonzero (a : list Q) : list nat := nonzero_from 0 a.

(** [a[idx]] with an integer index array: every index is bounds-checked,
    [IndexError] when one is out of range. *)
Definition item {A} (a : list A) (i : nat) : result A :=
  match a !! i with
  | Some v => Ok v
  | None => Raise IndexError
  end.

Definition take {A} (a : list A) (idx : list nat) : result (list A) :=
  mapM (item a) idx.

(** [a[lo:]] *)
Definition slice_from {A} (lo : nat) (a : list A) : list A := drop lo a.

(** [y[-1] = v] *)
Definition set_last {A} (y : list A) (v : A) : list A :=
  <[pred (length y) := v]> y.

(** [np.linspace(start, stop, num, endpoint)], after numpy's source:
    [[
    div = (num - 1) if endpoint else num
    delta = stop - start
    y = arange(0, num)
    if div > 0: y = y * (delta / div)
    else:       y = y * delta
    y += start
    if endpoint and num > 1: y[-1] = stop
    ]]
    (numpy rejects a negative [num]; the type [nat] has none.) *)
Definition linspace (start stop : Q) (num : nat) (endpoint : bool) : list Q :=
  let div := if endpoint then num - 1 else num in
  let delta := (stop - start)%Q in
  let y := map Qnat (arange num) in
  let y := if 0 <? div then map (fun v => v * (delta / Qnat div))%Q y
           else map (fun v => v * delta)%Q y in
  let y := map (fun v => v + start)%Q y in
  if endpoint && (1 <? num) then set_last y stop else y.

(** A geometrically spaced sample.  [np.geomspace(start, stop, num,
    endpoint)] is [10 ** linspace(log10(start), log10(stop), num,
    endpoint)]; a point of that linear sequence is
    [log10(start) + t * (log10(stop) - log10(start))] with [t] the
    matching point of [linspace(0, 1, num, endpoint)], so the sample is
    [start * (stop/start)^t].  The record keeps [start], [stop] and [t]. *)
Record geo : Type := Geo { geo_start : nat; geo_stop : nat; geo_exp : Q }.

(** The real number a sample stands for. *)
Definition geo_val (p : geo) : R :=
  (INR (geo_start p) *
   Rpower (INR (geo_stop p) / INR (geo_start p)) (Q2R (geo_exp p)))%R.

(** Exact comparison of a sample with an integer [d].  With [t = a/b]
    ([b > 0]) and [v] the sample, [v^b = start^b * (stop/start)^a], hence
    [v] and [d] compare as [start^b * stop^a] and [d^b * start^a] when
    [a >= 0], and as [start^b * start^(-a)] and [d^b * stop^(-a)] when
    [a < 0]. *)
Definition geo_compare (p : geo) (d : nat) : comparison :=
  let a := Qnum (geo_exp p) in
  let b := Zpos (Qden (geo_exp p)) in
  let s := Z.of_nat (geo_start p) in
  let e := Z.of_nat (geo_stop p) in
  let up := Z.max a 0 in
  let dn := Z.max (- a) 0 in
  (s ^ b * e ^ up * s ^ dn ?= Z.of_nat d ^ b * s ^ up * e ^ dn)%Z.

(** [p <= d] and [p < d] *)
Definition geo_leb (p : geo) (d : nat) : bool :=
  match geo_compare p d with Gt => false | _ => true end.

Definition geo_ltb (p : geo) (d : nat) : bool :=
  match geo_compare p d with Lt => true | _ => false end.

(** [np.geomspace(start, stop, num, endpoint)] on positive integers:
    [ValueError] when an end is zero. *)
Definition geomspace (start stop num : nat) (endpoint : bool) : result (list geo) :=
  if (start =? 0) || (stop =? 0) then Raise ValueError
  else Ok (map (Geo start stop) (linspace 0 1 num endpoint)).

(** [np.digitize(x, bins)] for non-decreasing [bins] ([right=False]): the
    index [i] with [bins[i-1] <= x < bins[i]], that is [0] below the first
    boundary and [len(bins)] from the last one on. *)
Fixpoint digitize1 (x : nat) (bins : list geo) : nat :=
  match bins with
  | [] => 0
  | b :: bins' => if geo_leb b x then S (digitize1 x bins') else 0
  end.

Definition digitize (xs : list nat) (bins : list geo) : list nat :=
  map (fun x => digitize1 x bins) xs.

(** [np.vectorize(f)(x)] without [otypes]: [ValueError] on a size 0
    input. *)
Definition vectorize {A B} (f : A → B) (x : list A) : result (list B) :=
  match x with
  | [] => Raise ValueError
  | _ => Ok (map f x)
  end.

End np.

(** ** pandas *)

Module pd.

(** A row of the frame [log_binning] builds. *)
Record row : Type := Row { degree : nat; freq : Q; bin : nat }.

(** [pd.DataFrame({'degree': d, 'freq': f})]: [ValueError] when the
    columns differ in length. *)
Definition DataFrame (d : list nat) (f : list Q) : result (list (nat * Q)) :=
  if length d =? length f then Ok (combine d f) else Raise ValueError.

(** [Series.min()] and [Series.max()]: [None] stands for the NaN of an
    empty column. *)
Definition Series_min (c : list nat) : option nat :=
  match c with
  | [] => None
  | d :: ds => Some (fold_right Nat.min d ds)
  end.

Definition Series_max (c : list nat) : option nat :=
  match c with
  | [] => None
  | d :: ds => Some (fold_right Nat.max d ds)
  end.

Definition mean (l : list Q) : Q :=
  (fold_right Qplus 0 l / Qnat (length l))%Q.

(** [df.groupby('bin').mean()]: one row per distinct key, keys ascending,
    holding the mean of each column over the rows of the group. *)
Definition group_keys (df : list row) : list nat :=
  merge_sort le (remove_dups (map bin df)).

Definition group (df : list row) (k : nat) : list row :=
  List.filter (fun r => bin r =? k) df.

Definition groupby_mean (df : list row) : list (nat * (Q * Q)) :=
  map (fun k => (k, (mean (map (fun r => Qnat (degree r)) (group df k)),
                     mean (map freq (group df k)))))
      (group_keys df).

End pd.

(** ** distribution.py *)

Module distribution.

(** [[
def degree_distribution(degrees):
    rho = np.bincount(degrees).astype(float)/len(degrees)
    k = np.arange(len(degrees))[np.nonzero(rho)]
    rho_k = rho[np.nonzero(rho)]
    return k, rho_k
]] *)
Definition degree_distribution (degrees : list nat) : result (list nat * list Q) :=
  let rho := map (fun c => Qnat c / Qnat (length degrees))%Q (np.bincount degrees) in
  k ← np.take (np.arange (length degrees)) (np.nonzero rho);
  rho_k ← np.take rho (np.nonzero rho);
  Ok (k, rho_k).

(** [[
def log_binning(degrees, num):
    df = pd.DataFrame({
        'degree' : np.arange(max(degrees)+1)[max(1, min(degrees)):],
        'freq' : np.bincount(degrees).astype(float)[max(1, min(degrees)):]/len(degrees)
    })
    df['bin'] = np.digitize(df.degree, bins=np.geomspace(df.degree.min(), df.degree.max(), num=num, endpoint=False))
    x = df.groupby('bin').mean().degree
    y = df.groupby('bin').mean().freq
    return x, y
]]
    On an empty frame the bounds are NaN and there is no row to classify:
    the two series are empty. *)
Definition log_binning (degrees : list nat) (num : nat) : result (list Q * list Q) :=
  dmax ← py.max degrees;
  dmin ← py.min degrees;
  let degree := np.slice_from (Nat.max 1 dmin) (np.arange (dmax + 1)) in
  let freq := map (fun c => Qnat c / Qnat (length degrees))%Q
                  (np.slice_from (Nat.max 1 dmin) (np.bincount degrees)) in
  df ← pd.DataFrame degree freq;
  match pd.Series_min (map fst df), pd.Series_max (map fst df) with
  | Some lo, Some hi =>
      bins ← np.geomspace lo hi num false;
      let df := zip_with (fun r b => pd.Row (fst r) (snd r) b) df
                         (np.digitize (map fst df) bins) in
      Ok (map (fun g => fst (snd g)) (pd.groupby_mean df),
          map (fun g => snd (snd g)) (pd.groupby_mean df))
  | _, _ => Ok ([], [])
  end.

(** [[
def cumulative_distribution(degrees, n_bins):
    right_prop = np.vectorize(lambda split, x=degrees: np.sum([i > split for i in degrees]).astype(float)/len(degrees))
    x = np.linspace(min(degrees), max(degrees)+1, n_bins, endpoint=True)
    y = right_prop(x)
    return x, y
]] *)
Definition right_prop (degrees : list nat) (split : Q) : Q :=
  (Qnat (length (List.filter (fun i => negb (Qle_bool (Qnat i) split)) degrees))
   / Qnat (length degrees))%Q.

Definition cumulative_distribution (degrees : list nat) (n_bins : nat)
  : result (list Q * list Q) :=
  dmin ← py.min degrees;
  dmax ← py.max degrees;
  let x := np.linspace (Qnat dmin) (Qnat (dmax + 1)) n_bins true in
  y ← np.vectorize (right_prop degrees) x;
  Ok (x, y).

(** [[
def log_cumulative_distribution(degrees, n_bins):
    right_prop = np.vectorize(lambda split, x=degrees: np.sum([i > split for i in degrees]).astype(float)/len(degrees))
    x = np.geomspace(max(1, min(degrees)), max(degrees)+1, n_bins, endpoint=True)
    y = right_prop(x)
    return x, y
]] *)
Definition log_right_prop (degrees : list nat) (split : np.geo) : Q :=
  (Qnat (length (List.filter (fun i => np.geo_ltb split i) degrees))
   / Qnat (length degrees))%Q.

Definition log_cumulative_distribution (degrees : list nat) (n_bins : nat)
  : result (list np.geo * list Q) :=
  dmin ← py.min degrees;
  dmax ← py.max degrees;
  x ← np.geomspace (Nat.max 1 dmin) (dmax + 1) n_bins true;
  y ← np.vectorize (log_right_prop degrees) x;
  Ok (x, y).

End distribution.

(** ** numpy in binary64 *)

(** The same functions of numpy with the arithmetic of float64.  A
    float is the rational number it stands for; an arithmetic operation
    is the exact operation followed by [rnd], rounding to the nearest
    number with 53 significant bits, ties to even.  The range of the
    exponent is not modelled: the values at hand are degrees, bin counts
    and their quotients, far from overflow and underflow.  The results
    of [np.log10] and [np.power] depend on the mathematical library in
    use and are not computed here: they are the two fields of [libm],
    about which nothing is assumed. *)
Module f64.

(** The integer nearest to [n / d], for [d > 0], ties to even. *)
Definition nearest_even (n d : Z) : Z :=
  let q := (n / d)%Z in
  match (2 * (n mod d) ?= d)%Z with
  | Lt => q
  | Gt => (q + 1)%Z
  | Eq => if Z.even q then q else (q + 1)%Z
  end.

(** [n / d] rounded to 53 significant bits, for [n, d > 0]: with
    [2^e <= n/d < 2^(e+1)], the result is [m * 2^(e-52)] for the integer
    [m] nearest to [n/d * 2^(52-e)]. *)
Definition round_pos (n d : Z) : Q :=
  let e0 := (Z.log2 n - Z.log2 d)%Z in
  let below := (n * 2 ^ Z.max (- e0) 0 <? d * 2 ^ Z.max e0 0)%Z in
  let e := if below then (e0 - 1)%Z else e0 in
  let shift := (52 - e)%Z in
  let m := nearest_even (n * 2 ^ Z.max shift 0) (d * 2 ^ Z.max (- shift) 0) in
  Qred (Qmake (m * 2 ^ Z.max (- shift) 0) (Z.to_pos (2 ^ Z.max shift 0))).

Definition rnd (q : Q) : Q :=
  match Qnum (Qred q) with
  | Z0 => 0
  | Zpos n => round_pos (Zpos n) (Zpos (Qden (Qred q)))
  | Zneg n => - round_pos (Zpos n) (Zpos (Qden (Qred q)))
  end.

(** A Python or numpy integer, converted to float64. *)
Definition of_nat (n : nat) : Q := rnd (Qnat n).

(** [np.linspace(start, stop, num, endpoint)] on floats, after numpy's
    source:
    [[
    div = (num - 1) if endpoint else num
    delta = stop - start
    y = arange(0, num, dtype=float64)
    if div > 0:
        step = delta / div
        if step == 0: y = y / div; y = y * delta
        else:         y = y * step
    else:
        y = y * delta
    y += start
    if endpoint and num > 1: y[-1] = stop
    ]] *)
Definition linspace (start stop : Q) (num : nat) (endpoint : bool) : list Q :=
  let div := if endpoint then num - 1 else num in
  let delta := rnd (stop - start) in
  let y := map of_nat (np.arange num) in
  let y :=
    if 0 <? div then
      let step := rnd (delta / of_nat div) in
      if Qeq_bool step 0
      then map (fun v => rnd (rnd (v / of_nat div) * delta)) y
      else map (fun v => rnd (v * step)) y
    else map (fun v => rnd (v * delta)) y in
  let y := map (fun v => rnd (v + start)) y in
  if endpoint && (1 <? num) then np.set_last y stop else y.

(** What the mathematical library returns: [log10 x] for
    [np.log10(x)], [power b x] for [np.power(b, x)]. *)
Record libm : Type := Libm { log10 : Q → Q; power : Q → Q → Q }.

(** [np.logspace(start, stop, num, endpoint, base=10.0)]:
    [power(base, linspace(start, stop, num, endpoint))]. *)
Definition logspace (m : libm) (start stop : Q) (num : nat) (endpoint : bool) : list Q :=
  map (power m 10) (linspace start stop num endpoint).

(** [np.geomspace(start, stop, num, endpoint)] on positive integers,
    after numpy's source:
    [[
    if start == 0 or stop == 0: raise ValueError
    result = logspace(log10(start), log10(stop), num, endpoint, base=10.0)
    if num > 0:
        result[0] = start
        if num > 1 and endpoint: result[-1] = stop
    ]] *)
Definition geomspace (m : libm) (start stop num : nat) (endpoint : bool)
  : result (list Q) :=
  if (start =? 0) || (stop =? 0) then Raise ValueError
  else
    let r := logspace m (log10 m (of_nat start)) (log10 m (of_nat stop)) num endpoint in
    let r := if 0 <? num then <[0 := of_nat start]> r else r in
    let r := if (1 <? num) && endpoint then np.set_last r (of_nat stop) else r in
    Ok r.

(** [a] is non-decreasing, non-increasing. *)
Fixpoint nondecreasing (a : list Q) : bool :=
  match a with
  | b :: (c :: _) as a' => Qle_bool b c && nondecreasing a'
  | _ => true
  end.

Fixpoint nonincreasing (a : list Q) : bool :=
  match a with
  | b :: (c :: _) as a' => Qle_bool c b && nonincreasing a'
  | _ => true
  end.

(** [np.searchsorted(a, v, side)] on a non-decreasing [a]: the number of
    entries [<= v] for [side='right'], of entries [< v] for
    [side='left']. *)
Fixpoint searchsorted_right (a : list Q) (v : Q) : nat :=
  match a with
  | [] => 0
  | b :: a' => if Qle_bool b v then S (searchsorted_right a' v) else 0
  end.

Fixpoint searchsorted_left (a : list Q) (v : Q) : nat :=
  match a with
  | [] => 0
  | b :: a' => if Qle_bool v b then 0 else S (searchsorted_left a' v)
  end.

(** [np.digitize(x, bins)] ([right=False]), after numpy's source:
    [[
    mono = _monotonicity(bins)
    if mono == 0: raise ValueError
    if mono == -1: return len(bins) - searchsorted(bins[::-1], x, side='left')
    else:          return searchsorted(bins, x, side='right')
    ]]
    [mono] is 1 for non-decreasing bins, -1 for other non-increasing
    bins.  The integers [x] are compared as floats. *)
Definition digitize (xs : list nat) (bins : list Q) : result (list nat) :=
  if nondecreasing bins
  then Ok (map (fun x => searchsorted_right bins (of_nat x)) xs)
  else if nonincreasing bins
  then Ok (map (fun x => length bins - searchsorted_left (rev bins) (of_nat x)) xs)
  else Raise ValueError.

(** [log_binning], [cumulative_distribution] and
    [log_cumulative_distribution] of [distribution.py], as above, on
    these functions.  Frequencies and means stay exact: they are
    reported, not compared. *)
Definition log_binning (m : libm) (degrees : list nat) (num : nat)
  : result (list Q * list Q) :=
  dmax ← py.max degrees;
  dmin ← py.min degrees;
  let degree := np.slice_from (Nat.max 1 dmin) (np.arange (dmax + 1)) in
  let freq := map (fun c => Qnat c / Qnat (length degrees))%Q
                  (np.slice_from (Nat.max 1 dmin) (np.bincount degrees)) in
  df ← pd.DataFrame degree freq;
  match pd.Series_min (map fst df), pd.Series_max (map fst df) with
  | Some lo, Some hi =>
      bins ← geomspace m lo hi num false;
      b ← digitize (map fst df) bins;
      let df := zip_with (fun r b => pd.Row (fst r) (snd r) b) df b in
      Ok (map (fun g => fst (snd g)) (pd.groupby_mean df),
          map (fun g => snd (snd g)) (pd.groupby_mean df))
  | _, _ => Ok ([], [])
  end.

Definition cumulative_distribution (degrees : list nat) (n_bins : nat)
  : result (list Q * list Q) :=
  dmin ← py.min degrees;
  dmax ← py.max degrees;
  let x := linspace (of_nat dmin) (of_nat (dmax + 1)) n_bins true in
  y ← np.vectorize (distribution.right_prop degrees) x;
  Ok (x, y).

Definition log_cumulative_distribution (m : libm) (degrees : list nat) (n_bins : nat)
  : result (list Q * list Q) :=
  dmin ← py.min degrees;
  dmax ← py.max degrees;
  x ← geomspace m (Nat.max 1 dmin) (dmax + 1) n_bins true;
  y ← np.vectorize (distribution.right_prop degrees) x;
  Ok (x, y).

End f64.

(** The binary64 numbers of the proof assistant, which are those of the
    machine, to compare [f64.rnd] with: the value of a finite float, and
    an integer as a float. *)
Definition binary64_value (f : float) : option Q :=
  match Prim2SF f with
  | S754_zero _ => Some 0%Q
  | S754_finite s m e =>
      let v := if (0 <=? e)%Z then Qmake (Zpos m * 2 ^ e) 1
               else Qmake (Zpos m) (Z.to_pos (2 ^ (- e))) in
      Some (Qred (if s then - v else v))
  | _ => None
  end.

Definition binary64_of_nat (n : nat) : float := of_uint63 (Uint63.of_Z (Z.of_nat n)).

(** [f] is the float of value [q]. *)
Definition is_binary64 (f : float) (q : Q) : bool :=
  match binary64_value f with
  | Some p => Qeq_bool p q
  | None => false
  end.

(** ** The file system *)

(** What a file holds.  The text formats are those of networkx and
    pandas; a file is kept as the data its lines spell out: an edge list
    has one [u v] pair per line, a coordinate table has a header naming
    its columns and one row per node. *)
Inductive content : Type :=
| EdgeList (lines : list (nat * nat))
| Table (columns : list (string * list Q)).

Inductive node : Type :=
| File (c : content)
| Dir.

(** Paths are taken literally, as the keys of the map; the parent of a
    path is assumed to exist. *)
Abbreviation fs := (gmap string node).

(** A computation on the file system: it may raise, and what it wrote
    before raising stays. *)
Definition io (A : Type) : Type := fs → result A * fs.

Global Instance io_ret : MRet io := fun A a s => (Ok a, s).
Global Instance io_bind : MBind io := fun A B k m s =>
  match m s with
  | (Ok a, s') => k a s'
  | (Raise e, s') => (Raise e, s')
  end.

Definition raise {A} (e : exn) : io A := fun s => (Raise e, s).

Definition lift {A} (r : result A) : io A := fun s => (r, s).

Definition write_file (p : string) (c : content) : io unit := fun s =>
  match s !! p with
  | Some Dir => (Raise IsADirectoryError, s)
  | _ => (Ok (), <[p := File c]> s)
  end.

Definition read_file (p : string) : io content := fun s =>
  match s !! p with
  | Some (File c) => (Ok c, s)
  | Some Dir => (Raise IsADirectoryError, s)
  | None => (Raise FileNotFoundError, s)
  end.

(** [needle in hay] *)
Fixpoint contains (needle hay : string) : bool :=
  String.prefix needle hay ||
  match hay with
  | EmptyString => false
  | String _ hay' => contains needle hay'
  end.

Fixpoint endswith_sep (s : string) : bool :=
  match s with
  | EmptyString => false
  | String c EmptyString => Ascii.eqb c "/"
  | String _ s' => endswith_sep s'
  end.

Fixpoint strip_prefix (pre s : string) : option string :=
  match pre, s with
  | EmptyString, _ => Some s
  | String c pre', String c' s' =>
      if Ascii.eqb c c' then strip_prefix pre' s' else None
  | String _ _, EmptyString => None
  end.

Module os.

(** [os.path.join(a, b)] (posixpath) *)
Definition path_join (a b : string) : string :=
  if String.prefix "/" b then b
  else if String.eqb a EmptyString || endswith_sep a then a +:+ b
  else a +:+ "/" +:+ b.

Definition path_exists (p : string) : io bool := fun s =>
  (Ok (bool_decide (is_Some (s !! p))), s).

Definition mkdir (p : string) : io unit := fun s =>
  match s !! p with
  | Some _ => (Raise FileExistsError, s)
  | None => (Ok (), <[p := Dir]> s)
  end.

(** The name under which [key] is an entry of the directory [dir]. *)
Definition entry_name (dir key : string) : option string :=
  match strip_prefix (path_join dir EmptyString) key with
  | Some n => if String.eqb n EmptyString || contains "/" n then None else Some n
  | None => None
  end.

Definition entries (dir : string) (s : fs) : list string :=
  omap (entry_name dir) (map fst (map_to_list s)).

(** [os.listdir(p)]: the names of the entries, in no particular order. *)
Definition listdir (p : string) : io (list string) := fun s =>
  match s !! p with
  | Some Dir => (Ok (entries p s), s)
  | Some (File _) => (Raise NotADirectoryError, s)
  | None => (Raise FileNotFoundError, s)
  end.

End os.

(** [sorted(l)] on strings *)
Definition sorted (l : list string) : list string := merge_sort String.le l.

(** ** networkx *)

Module nx.

(** A [DiGraph]: its adjacency, every node with its successors, both in
    insertion order as Python dicts keep them. *)
Definition DiGraph : Type := list (nat * list nat).

Definition nodes (G : DiGraph) : list nat := map fst G.

(** [G.edges()] *)
Definition edges (G : DiGraph) : list (nat * nat) :=
  flat_map (fun e => map (pair (fst e)) (snd e)) G.

Definition has_node (G : DiGraph) (n : nat) : bool :=
  existsb (fun e => fst e =? n) G.

Definition add_node (n : nat) (G : DiGraph) : DiGraph :=
  if has_node G n then G else G ++ [(n, [])].

Definition add_succ (u v : nat) (G : DiGraph) : DiGraph :=
  map (fun e => if fst e =? u
                then (fst e, if existsb (Nat.eqb v) (snd e) then snd e
                             else snd e ++ [v])
                else e) G.

(** [G.add_edge(u, v)] *)
Definition add_edge (u v : nat) (G : DiGraph) : DiGraph :=
  add_succ u v (add_node v (add_node u G)).

(** [G.add_nodes_from(ns)] *)
Definition add_nodes_from (ns : list nat) (G : DiGraph) : DiGraph :=
  fold_left (fun G n => add_node n G) ns G.

(** [nx.write_edgelist(G, path, data=False)] *)
Definition write_edgelist (G : DiGraph) (path : string) : io unit :=
  write_file path (EdgeList (edges G)).

(** [nx.read_edgelist(path, create_using=nx.DiGraph(), nodetype=int)].
    A line of fewer than two fields is skipped; the fields of a table
    header are not integers. *)
Definition read_edgelist (path : string) : io DiGraph :=
  c ← read_file path;
  match c with
  | EdgeList lines =>
      mret (fold_left (fun G uv => add_edge (fst uv) (snd uv) G) lines [])
  | Table columns =>
      if length columns <? 2 then mret [] else raise TypeError
  end.

(** The degree views [G.out_degree()], [G.in_degree()] and [G.degree()]:
    the pairs [(n, d)] in node order, [d] the number of successors of
    [n], of its predecessors, and their sum. *)
Definition out_degree_of (e : nat * list nat) : nat := length (snd e).

Definition in_degree_of (G : DiGraph) (n : nat) : nat :=
  length (List.filter (fun e => existsb (Nat.eqb n) (snd e)) G).

Definition out_degree (G : DiGraph) : list (nat * nat) :=
  map (fun e => (fst e, out_degree_of e)) G.

Definition in_degree (G : DiGraph) : list (nat * nat) :=
  map (fun e => (fst e, in_degree_of G (fst e))) G.

Definition degree (G : DiGraph) : list (nat * nat) :=
  map (fun e => (fst e, out_degree_of e + in_degree_of G (fst e))) G.

End nx.

(** ** pandas, on coordinate tables *)

Module pdio.

Definition DataFrame : Type := list (string * list Q).

(** [pd.DataFrame(dict(zip(cols, coords)))]: [ValueError] unless the
    arrays have one length. *)
Definition of_dict (d : list (string * list Q)) : result DataFrame :=
  match d with
  | [] => Ok []
  | c :: d' =>
      if forallb (fun c' => length (snd c') =? length (snd c)) d'
      then Ok d else Raise ValueError
  end.

(** [len(df)] *)
Definition len (df : DataFrame) : nat :=
  match df with
  | [] => 0
  | c :: _ => length (snd c)
  end.

(** [df[col].values]: [KeyError] when no column has that name. *)
Definition column (df : DataFrame) (col : string) : result (list Q) :=
  match list_find (fun c => fst c = col) df with
  | Some (_, c) => Ok (snd c)
  | None => Raise KeyError
  end.

(** [df.to_csv(path, index=None, sep=' ')] *)
Definition to_csv (df : DataFrame) (path : string) : io unit :=
  write_file path (Table df).

(** [pd.read_csv(path, delimiter=' ')].  The first line of a file is its
    header: read as a table, an edge list has two columns named after
    the numbers of its first line. *)
Definition read_csv (path : string) : io DataFrame :=
  c ← read_file path;
  match c with
  | Table columns => mret columns
  | EdgeList [] => raise EmptyDataError
  | EdgeList (uv :: lines) =>
      mret [(pretty (fst uv), map (fun l => Qnat (fst l)) lines);
            (if fst uv =? snd uv then pretty (snd uv) +:+ ".1" else pretty (snd uv),
             map (fun l => Qnat (snd l)) lines)]
  end.

End pdio.

(** ** functions.py *)

Module functions.

(** A network: the graph and its coordinate arrays. *)
Definition G_coords : Type := nx.DiGraph * list (list Q).

(** [[
def save_G_coords(G_coords, edgelist_path, coords_path):
    G, coords = G_coords
    nx.write_edgelist(G, edgelist_path, data=False)
    cols = ('theta', 'radius') if len(coords) == 2 else ('theta', 'radius_p', 'radius_m')
    pd.DataFrame(dict(zip(cols, coords))).to_csv(coords_path, index=None, sep=' ')
]] *)
Definition save_G_coords (Gc : G_coords) (edgelist_path coords_path : string) : io unit :=
  let G := fst Gc in
  let coords := snd Gc in
  _ ← nx.write_edgelist G edgelist_path;
  let cols := if length coords =? 2 then ["theta"; "radius"]
              else ["theta"; "radius_p"; "radius_m"] in
  df ← lift (pdio.of_dict (zip cols coords));
  pdio.to_csv df coords_path.

(** [[
def get_G_coords(edgelist_path, coords_path):
    df = pd.read_csv(coords_path, delimiter=' ')
    cols = ('theta', 'radius') if len(df.columns) == 2 else ('theta', 'radius_p', 'radius_m')
    coords = tuple(df[col].values for col in cols)
    G = nx.read_edgelist(edgelist_path, create_using=nx.DiGraph(), nodetype=int)
    G.add_nodes_from([i for i in range(len(df))])
    return G, coords
]] *)
Definition get_G_coords (edgelist_path coords_path : string) : io G_coords :=
  df ← pdio.read_csv coords_path;
  let cols := if length df =? 2 then ["theta"; "radius"]
              else ["theta"; "radius_p"; "radius_m"] in
  coords ← lift (mapM (pdio.column df) cols);
  G ← nx.read_edgelist edgelist_path;
  let G := nx.add_nodes_from (seq 0 (pdio.len df)) G in
  mret (G, coords).

(** [[
def save_networks(networks, path):
    if not os.path.exists(path):
        os.mkdir(path)
    elif len(os.listdir(path)) > 0:
        raise Exception("The directory is not empty.")
    edgelist_paths = []
    coords_paths = []
    for i, G_coords in enumerate(networks):
        e_path = os.path.join(path, 'edgelist_{}.txt'.format(i))
        c_path = os.path.join(path, 'coords_{}.txt'.format(i))
        edgelist_paths.append(e_path)
        coords_paths.append(c_path)
        save_G_coords(G_coords, e_path, c_path)
]]
    The two path lists are filled and never read. *)
Fixpoint save_each (i : nat) (networks : list G_coords) (path : string) : io unit :=
  match networks with
  | [] => mret ()
  | Gc :: networks' =>
      let e_path := os.path_join path ("edgelist_" +:+ pretty i +:+ ".txt") in
      let c_path := os.path_join path ("coords_" +:+ pretty i +:+ ".txt") in
      _ ← save_G_coords Gc e_path c_path;
      save_each (S i) networks' path
  end.

Definition save_networks (networks : list G_coords) (path : string) : io unit :=
  present ← os.path_exists path;
  _ ← (if negb present then os.mkdir path
       else names ← os.listdir path;
            if 0 <? length names
            then raise (Exception "The directory is not empty.")
            else mret ());
  save_each 0 networks path.

(** [[
def get_networks(path):
    networks = []
    edgelist_paths = sorted([os.path.join(path, p) for p in os.listdir(path) if 'edgelist' in p])
    coords_paths = sorted([os.path.join(path, p) for p in os.listdir(path) if 'coords' in p])
    for e_path, c_path in zip(edgelist_paths, coords_paths):
        networks.append(get_G_coords(e_path, c_path))
    return networks
]] *)
Definition paths_with (tag path : string) (names : list string) : list string :=
  sorted (map (os.path_join path) (List.filter (contains tag) names)).

Definition get_networks (path : string) : io (list G_coords) :=
  names ← os.listdir path;
  let edgelist_paths := paths_with "edgelist" path names in
  names' ← os.listdir path;
  let coords_paths := paths_with "coords" path names' in
  mapM (fun ec => get_G_coords (fst ec) (snd ec)) (zip edgelist_paths coords_paths).

(** [[
def get_degrees(deg_type, *networks):
    deg_func = lambda G: {'all': G.degree, 'in': G.in_degree, 'out': G.out_degree}
    return [d for G, coords in networks for n, d in deg_func(G)[deg_type]()]
]]
    The dictionary is looked up once per network, when its turn comes:
    [KeyError] for a [deg_type] that is not a key. *)
Definition deg_func (G : nx.DiGraph) (deg_type : string) : result (list (nat * nat)) :=
  if String.eqb deg_type "all" then Ok (nx.degree G)
  else if String.eqb deg_type "in" then Ok (nx.in_degree G)
  else if String.eqb deg_type "out" then Ok (nx.out_degree G)
  else Raise KeyError.

Definition get_degrees (deg_type : string) (networks : list G_coords)
  : result (list nat) :=
  ds ← mapM (fun Gc => view ← deg_func (fst Gc) deg_type; Ok (map snd view))
            networks;
  Ok (concat ds).

End functions.

Import np distribution functions.

(** * Definitions used to state the properties *)

(** The degree values that occur, ascending, and their frequencies. *)
Definition support (degrees : list nat) : list nat :=
  List.filter (fun v => 0 <? count_occ Nat.eq_dec degrees v)
              (seq 0 (S (list_max degrees))).

Definition frequency (degrees : list nat) (v : nat) : Q :=
  (Qnat (count_occ Nat.eq_dec degrees v) / Qnat (length degrees))%Q.

(** Point [i] of [n] points evenly spaced from [a] to [b] inclusive. *)
Definition lin_point (a b : Q) (n i : nat) : Q :=
  (a + Qnat i * ((b - a) / Qnat (n - 1)))%Q.






(** A computation that leaves the file system as it found it. *)
Definition reads_only {A} (m : io A) : Prop := ∀ s, snd (m s) = s.

(** A directory with two edge lists and one coordinate table. *)
Definition fs_mismatch : fs :=
  <["d/edgelist_1.txt" := File (EdgeList [(1, 0)])]>
  (<["d/edgelist_0.txt" := File (EdgeList [(0, 1)])]>
  (<["d/coords_0.txt" := File (Table [("theta", [1 # 2; 1 # 3]); ("radius", [1; 2])]%Q)]>
  (<["d" := Dir]> ∅))).

(** The claim on [get_networks], as the specification words it. *)
Definition batch_read_claim (path : string) (s : fs) : Prop :=
  length (paths_with "edgelist" path (os.entries path s)) ≠
  length (paths_with "coords" path (os.entries path s)) →
  ∃ e, fst (get_networks path s) = Raise e.

Definition columns_of {A} (coords : list A) : list string :=
  if length coords =? 2 then ["theta"; "radius"]
  else ["theta"; "radius_p"; "radius_m"].

(** The two sides [geo_compare] compares. *)
Definition geo_lhs (p : geo) : Z :=
  (Z.of_nat (geo_start p) ^ Zpos (Qden (geo_exp p))
   * Z.of_nat (geo_stop p) ^ Z.max (Qnum (geo_exp p)) 0
   * Z.of_nat (geo_start p) ^ Z.max (- Qnum (geo_exp p)) 0)%Z.

Definition geo_rhs (p : geo) (d : nat) : Z :=
  (Z.of_nat d ^ Zpos (Qden (geo_exp p))
   * Z.of_nat (geo_start p) ^ Z.max (Qnum (geo_exp p)) 0
   * Z.of_nat (geo_stop p) ^ Z.max (- Qnum (geo_exp p)) 0)%Z.






Definition series (df : list pd.row) : list Q * list Q :=
  (map (fun g => fst (snd g)) (pd.groupby_mean df),
   map (fun g => snd (snd g)) (pd.groupby_mean df)).







(** [d] lies in bin [j >= 1] of the float boundaries [bs]:
    [bs[j-1] <= d < bs[j]], the last bin being unbounded. *)
Definition in_float_bin (bs : list Q) (j d : nat) : bool :=
  match bs !! (j - 1) with Some b => Qle_bool b (Qnat d) | None => false end &&
  match bs !! j with Some b => negb (Qle_bool b (Qnat d)) | None => true end.

(** One row per non-empty bin, in bin order: the mean of the degree
    values of the bin and the mean of their frequencies. *)
Definition float_bin_rows (degrees : list nat) (bs : list Q) (domain : list nat)
  : list (Q * Q) :=
  omap (fun j => match List.filter (in_float_bin bs j) domain with
                 | [] => None
                 | m => Some (pd.mean (map Qnat m), pd.mean (map (frequency degrees) m))
                 end) (seq 1 (length bs)).

(** A mathematical library for the examples: [log10] and [power] on
    the powers of ten up to 1000, where every library is exact.  Its
    values elsewhere are arbitrary and are not used. *)
Definition libm_table : f64.libm :=
  f64.Libm
    (fun x => if Qeq_bool x 10 then 1 else if Qeq_bool x 100 then 2
              else if Qeq_bool x 1000 then 3 else 0)%Q
    (fun b x => if Qeq_bool x 0 then 1 else if Qeq_bool x 1 then b
                else if Qeq_bool x 2 then b * b else b * b * b)%Q.

(** ** Graphs, paths and collections *)

(** The graph [get_G_coords] builds from the lines of an edge list and
    the number of rows of a table. *)
Definition read_graph (lines : list (nat * nat)) (rows : nat) : nx.DiGraph :=
  nx.add_nodes_from (seq 0 rows)
    (fold_left (fun G uv => nx.add_edge (fst uv) (snd uv) G) lines []).

(** The paths [save_networks] gives to network [i]. *)
Definition e_path (path : string) (i : nat) : string :=
  os.path_join path ("edgelist_" +:+ pretty i +:+ ".txt").

Definition c_path (path : string) (i : nat) : string :=
  os.path_join path ("coords_" +:+ pretty i +:+ ".txt").

(** The coordinate tuples [save_G_coords] can write and [get_G_coords]
    read back: two or three arrays of one length. *)
Definition coords_ok (Gc : G_coords) : Prop :=
  (length (snd Gc) = 2 ∨ length (snd Gc) = 3) ∧
  ∃ N, Forall (fun a => length a = N) (snd Gc).

(** The invariant networkx keeps on a [DiGraph]: every node once, and
    the successors of a node are nodes, each once. *)
Definition digraph_ok (G : nx.DiGraph) : Prop :=
  List.NoDup (nx.nodes G) ∧
  ∀ e, In e G → List.NoDup (snd e) ∧ ∀ v, In v (snd e) → In v (nx.nodes G).

(** No edge from a node to itself. *)
Definition loop_free (G : nx.DiGraph) : Prop := ∀ n, ¬ In (n, n) (nx.edges G).

Definition total_nodes (networks : list G_coords) : nat :=
  list_sum (map (fun Gc => length (nx.nodes (fst Gc))) networks).

Definition total_edges (networks : list G_coords) : nat :=
  list_sum (map (fun Gc => length (nx.edges (fst Gc))) networks).

Definition known_type (deg_type : string) : Prop :=
  deg_type = "all" ∨ deg_type = "in" ∨ deg_type = "out".

(** The degrees of one graph, by view. *)
Definition degrees_of (view : nx.DiGraph → list (nat * nat)) (G : nx.DiGraph) : list nat :=
  map snd (view G).

(** [(u, v)] is an edge of the list. *)
Definition has_edge (E : list (nat * nat)) (u v : nat) : bool :=
  existsb (fun uv => (fst uv =? u) && (snd uv =? v)) E.

(** The degrees read off a node list and an edge list. *)
Definition out_count (ns : list nat) (E : list (nat * nat)) (u : nat) : nat :=
  length (List.filter (fun v => has_edge E u v) ns).

Definition in_count (ns : list nat) (E : list (nat * nat)) (v : nat) : nat :=
  length (List.filter (fun u => has_edge E u v) ns).



(** The order of the file names of two networks: that of the strings
    [<i>.txt] and [<j>.txt]. *)
Definition name_le (i j : nat) : Prop :=
  String.le (pretty i +:+ ".txt") (pretty j +:+ ".txt").

Global Instance name_le_dec : RelDecision name_le :=
  fun i j => decide (String.le (pretty i +:+ ".txt") (pretty j +:+ ".txt")).


(** * Properties *)

(** ** Results and lists *)

Lemma map_fmap {A B} (f : A → B) (l : list A) : map f l = f <$> l.
Proof. reflexivity. Qed.

Lemma mapM_result_cons {A B} (f : A → result B) (a : A) (l : list A) :
  mapM f (a :: l) = match f a with
                    | Ok b => match mapM f l with
                              | Ok bs => Ok (b :: bs)
                              | Raise e => Raise e
                              end
                    | Raise e => Raise e
                    end.
Proof. reflexivity. Qed.

Lemma result_bind_Ok {A B} (a : A) (k : A → result B) : (Ok a ≫= k) = k a.
Proof. reflexivity. Qed.

Lemma result_bind_Raise {A B} (e : exn) (k : A → result B) :
  (Raise e ≫= k) = Raise e.
Proof. reflexivity. Qed.

Lemma take_Ok {A} (a : list A) (idx : list nat) (vs : list A) :
  Forall2 (fun i v => a !! i = Some v) idx vs → take a idx = Ok vs.
Proof.
  unfold take. induction 1 as [|i v idx vs Hi _ IH]; [reflexivity|].
  rewrite mapM_result_cons, IH. unfold item. by rewrite Hi.
Qed.

Lemma take_Raise {A} (a : list A) (idx : list nat) :
  Exists (fun i => length a ≤ i) idx → take a idx = Raise IndexError.
Proof.
  unfold take. induction idx as [|i idx IH]; intros H.
  - inversion H.
  - rewrite mapM_result_cons. unfold item at 1.
    destruct (a !! i) as [v|] eqn:Hi; [|reflexivity].
    inversion H as [? ? Hle|? ? Hex]; subst.
    + apply lookup_lt_Some in Hi. lia.
    + by rewrite (IH Hex).
Qed.

Lemma fold_max_list_max (d : nat) (ds : list nat) :
  fold_right Nat.max d ds = list_max (d :: ds).
Proof.
  induction ds as [|e ds IH]; cbn in *; [lia|]. rewrite IH. lia.
Qed.

Lemma py_max_list_max (l : list nat) : l ≠ [] → py.max l = Ok (list_max l).
Proof.
  destruct l as [|d ds]; [congruence|]. intros _. cbn -[list_max].
  by rewrite fold_max_list_max.
Qed.

Lemma list_max_cons (d : nat) (ds : list nat) :
  list_max (d :: ds) = Nat.max d (list_max ds).
Proof. reflexivity. Qed.

Lemma list_max_In (l : list nat) : l ≠ [] → In (list_max l) l.
Proof.
  induction l as [|d ds IH]; [congruence|]. intros _. rewrite list_max_cons.
  destruct ds as [|e ds]; [left; cbn; lia|].
  destruct (Nat.max_spec d (list_max (e :: ds))) as [[_ ->]|[_ ->]].
  - right. apply IH. congruence.
  - by left.
Qed.

Lemma list_max_ge (l : list nat) (d : nat) : In d l → d ≤ list_max l.
Proof.
  intros H. pose proof (proj1 (list_max_le l (list_max l)) (le_n _)) as Hall.
  rewrite List.Forall_forall in Hall. by apply Hall.
Qed.

(** ** [degree_distribution] *)

Lemma Qnat_pos (n : nat) : 0 < n → (0 < Qnat n)%Q.
Proof. intros H. unfold Qnat, Qlt. cbn. lia. Qed.

Lemma Qnat_nonneg (n : nat) : (0 <= Qnat n)%Q.
Proof. unfold Qnat, Qle. cbn. lia. Qed.

Lemma freq_nonzero (c n : nat) :
  0 < n → negb (Qeq_bool (Qnat c / Qnat n) 0) = (0 <? c).
Proof.
  intros Hn. destruct (Nat.ltb_spec 0 c) as [Hc|Hc].
  - apply negb_true_iff, not_true_iff_false. intros E%Qeq_bool_iff.
    assert (0 < Qnat c / Qnat n)%Q as H.
    { apply Qlt_shift_div_l; [by apply Qnat_pos|]. rewrite Qmult_0_l. by apply Qnat_pos. }
    rewrite E in H. by apply Qlt_irrefl in H.
  - apply negb_false_iff, Qeq_bool_iff. replace c with 0 by lia.
    unfold Qnat. cbn. unfold Qdiv. by rewrite Qmult_0_l.
Qed.

Lemma nonzero_from_map (f : nat → Q) (i n : nat) :
  nonzero_from i (map f (seq i n)) =
  List.filter (fun v => negb (Qeq_bool (f v) 0)) (seq i n).
Proof.
  revert i. induction n as [|n IH]; intros i; [reflexivity|].
  cbn. rewrite IH. by destruct (Qeq_bool (f i) 0).
Qed.

Lemma bincount_eq (x : list nat) :
  x ≠ [] → bincount x = map (count_occ Nat.eq_dec x) (seq 0 (S (list_max x))).
Proof. by destruct x. Qed.

Lemma bincount_length (x : list nat) : x ≠ [] → length (bincount x) = S (list_max x).
Proof. intros H. by rewrite (bincount_eq _ H), length_map, length_seq. Qed.

Lemma nonzero_rho (degrees : list nat) :
  degrees ≠ [] →
  nonzero (map (fun c => Qnat c / Qnat (length degrees))%Q (bincount degrees))
  = support degrees.
Proof.
  intros Hne. unfold nonzero, support. rewrite (bincount_eq _ Hne).
  rewrite List.map_map, nonzero_from_map.
  apply List.filter_ext. intros v. apply freq_nonzero.
  destruct degrees; [done|cbn; lia].
Qed.

Lemma support_In (degrees : list nat) (v : nat) :
  In v (support degrees) ↔ In v degrees.
Proof.
  unfold support. rewrite List.filter_In, List.in_seq, Nat.ltb_lt.
  split.
  - intros [_ H]. by apply (count_occ_In Nat.eq_dec).
  - intros H. split.
    + apply list_max_ge in H. lia.
    + by apply (count_occ_In Nat.eq_dec) in H.
Qed.

Lemma support_lookup (degrees : list nat) (i v : nat) :
  support degrees !! i = Some v → In v degrees ∧ v ≤ list_max degrees.
Proof.
  intros H. apply list_elem_of_lookup_2, list_elem_of_In in H.
  apply (proj1 (support_In degrees v)) in H.
  split; [exact H|]. by apply list_max_ge.
Qed.

(** What [degree_distribution] computes on a non-empty sequence. *)
Lemma degree_distribution_eq (degrees : list nat) :
  degrees ≠ [] →
  degree_distribution degrees =
  if decide (list_max degrees < length degrees)
  then Ok (support degrees, map (frequency degrees) (support degrees))
  else Raise IndexError.
Proof.
  intros Hne. unfold degree_distribution. cbv zeta.
  rewrite (nonzero_rho _ Hne). case_decide as Hlt.
  - rewrite (take_Ok _ _ (support degrees)).
    2:{ apply Forall2_same_length_lookup_2; [done|]. intros i v w Hv Hw.
        assert (v = w) as <- by congruence. apply lookup_seq. split; [done|].
        apply support_lookup in Hv. lia. }
    rewrite result_bind_Ok.
    rewrite (take_Ok _ _ (map (frequency degrees) (support degrees))); [done|].
    apply Forall2_same_length_lookup_2; [by rewrite length_map|].
    intros i v q Hv Hq. rewrite map_fmap, list_lookup_fmap, Hv in Hq.
    injection Hq as <-. rewrite (bincount_eq _ Hne), !map_fmap, !list_lookup_fmap.
    apply support_lookup in Hv. rewrite lookup_seq_lt by lia. done.
  - rewrite (take_Raise (arange (length degrees))); [reflexivity|]. apply List.Exists_exists.
    exists (list_max degrees). split.
    + apply support_In. by apply list_max_In.
    + unfold arange. rewrite length_seq. lia.
Qed.

(** C1, the sample of the specification: the degrees [1,1,2,3,3,3] have
    the distribution k = [1,2,3], rho_k = [2/6, 1/6, 3/6]. *)
Example degree_distribution_sample :
  degree_distribution [1; 1; 2; 3; 3; 3] = Ok ([1; 2; 3], [2 # 6; 1 # 6; 3 # 6]%Q).
Proof. reflexivity. Qed.

(** C1: on the degree sequence [2, 2] (two nodes joined by both arcs,
    total degrees) [degree_distribution] does not return the
    distribution k = [2], rho_k = [1]: the table of frequencies has
    length 3 and its position 2 indexes a range of length 2. *)
Theorem degree_distribution_two_twos :
  degree_distribution [2; 2] = Raise IndexError ∧
  support [2; 2] = [2] ∧ map (frequency [2; 2]) (support [2; 2]) = [2 # 2]%Q.
Proof. repeat split. Qed.

(** C2: a non-empty degree sequence holding a value that is at least its
    length makes [degree_distribution] fail with [IndexError]; a call
    that returns had [max(degrees) < len(degrees)]. *)
Theorem degree_distribution_index_error (degrees : list nat) :
  degrees ≠ [] →
  ((∃ d, d ∈ degrees ∧ length degrees ≤ d) →
   degree_distribution degrees = Raise IndexError) ∧
  (∀ r dmax, degree_distribution degrees = Ok r → py.max degrees = Ok dmax →
             dmax < length degrees).
Proof.
  intros Hne. rewrite (degree_distribution_eq _ Hne). split.
  - intros (d & Hd & Hle). apply list_elem_of_In, list_max_ge in Hd.
    case_decide; [lia|done].
  - intros r dmax Hr Hmax. rewrite (py_max_list_max _ Hne) in Hmax.
    injection Hmax as <-. by case_decide.
Qed.

Lemma degree_distribution_index_error_witness :
  [0; 5; 5] ≠ [] ∧ degree_distribution [0; 5; 5] = Raise IndexError ∧
  [3] ≠ [] ∧ degree_distribution [3] = Raise IndexError.
Proof.
  split; [done|]. split.
  - apply (degree_distribution_index_error [0; 5; 5]); [done|].
    exists 5. split; [|cbn; lia]. apply list_elem_of_In. cbn. tauto.
  - split; [done|]. apply (degree_distribution_index_error [3]); [done|].
    exists 3. split; [|cbn; lia]. apply list_elem_of_In. cbn. tauto.
Defined.

(** ** [min] and [max] *)

Lemma fold_min_spec (d : nat) (ds : list nat) :
  In (fold_right Nat.min d ds) (d :: ds) ∧
  ∀ e, In e (d :: ds) → fold_right Nat.min d ds ≤ e.
Proof.
  induction ds as [|e ds [IHin IHle]]; cbn.
  - split; [by left|]. intros e [->|[]]. done.
  - split.
    + destruct (Nat.min_spec e (fold_right Nat.min d ds)) as [[_ ->]|[_ ->]].
      * right. by left.
      * destruct IHin as [IH|IH]; [by left|right; by right].
    + intros e' [<-|[<-|H]].
      * etransitivity; [apply Nat.le_min_r|]. apply IHle. by left.
      * apply Nat.le_min_l.
      * etransitivity; [apply Nat.le_min_r|]. apply IHle. by right.
Qed.

Lemma py_min_spec (l : list nat) (dmin : nat) :
  py.min l = Ok dmin → In dmin l ∧ ∀ e, In e l → dmin ≤ e.
Proof.
  destruct l as [|d ds]; [discriminate|]. cbn -[In]. intros [= <-].
  apply fold_min_spec.
Qed.

Lemma py_max_spec (l : list nat) (dmax : nat) :
  py.max l = Ok dmax → In dmax l ∧ ∀ e, In e l → e ≤ dmax.
Proof.
  intros H. assert (l ≠ []) as Hne by (by destruct l).
  rewrite (py_max_list_max _ Hne) in H. injection H as <-.
  split; [by apply list_max_In|]. apply list_max_ge.
Qed.

Lemma py_min_Ok (l : list nat) : l ≠ [] → ∃ dmin, py.min l = Ok dmin.
Proof. destruct l; [done|]. by eexists. Qed.

Lemma py_min_le_max (l : list nat) (dmin dmax : nat) :
  py.min l = Ok dmin → py.max l = Ok dmax → dmin ≤ dmax.
Proof.
  intros [Hin _]%py_min_spec [_ Hle]%py_max_spec. by apply Hle.
Qed.

(** ** Rationals *)

Lemma Qnat_le (m n : nat) : m ≤ n → (Qnat m <= Qnat n)%Q.
Proof. intros H. unfold Qnat. rewrite <- Zle_Qle. lia. Qed.

Lemma Qnat_lt (m n : nat) : m < n → (Qnat m < Qnat n)%Q.
Proof. intros H. unfold Qnat. rewrite <- Zlt_Qlt. lia. Qed.

Lemma Qnat_lt_inv (m n : nat) : (Qnat m < Qnat n)%Q → m < n.
Proof. unfold Qnat. rewrite <- Zlt_Qlt. lia. Qed.

Lemma Qnat_S (n : nat) : (Qnat (S n) == Qnat n + 1)%Q.
Proof. unfold Qnat. rewrite Nat2Z.inj_succ, <- Z.add_1_r, inject_Z_plus. reflexivity. Qed.

(** ** [linspace] *)

Lemma linspace_length (a b : Q) (n : nat) (e : bool) : length (linspace a b n e) = n.
Proof.
  unfold linspace, set_last, arange.
  repeat match goal with
         | |- context [if ?c then _ else _] => destruct c
         end;
  rewrite ?length_insert, !length_map, length_seq; reflexivity.
Qed.

Lemma linspace_lookup (a b : Q) (n i : nat) :
  i < n → ∃ v, linspace a b n true !! i = Some v ∧ (v == lin_point a b n i)%Q.
Proof.
  intros Hi. unfold linspace, lin_point, arange.
  destruct (Nat.ltb_spec 0 (n - 1)) as [Hn|Hn].
  - replace (1 <? n) with true by (symmetry; apply Nat.ltb_lt; lia).
    cbn [andb]. unfold set_last. rewrite !length_map, length_seq.
    destruct (decide (i = pred n)) as [->|Hne].
    + eexists. rewrite list_lookup_insert_eq by (rewrite !length_map, length_seq; lia).
      split; [reflexivity|].
      assert (Qnat (pred n) == Qnat (n - 1))%Q as -> by (by rewrite Nat.sub_1_r).
      assert (0 < Qnat (n - 1))%Q by (by apply Qnat_pos). field. intros E. rewrite E in H. by apply Qlt_irrefl in H.
    + rewrite list_lookup_insert_ne by done.
      rewrite !map_fmap, !list_lookup_fmap, lookup_seq_lt by done. cbn.
      eexists. split; [reflexivity|]. ring.
  - replace (1 <? n) with false by (symmetry; apply Nat.ltb_ge; lia).
    cbn [andb]. rewrite !map_fmap, !list_lookup_fmap, lookup_seq_lt by done. cbn.
    eexists. split; [reflexivity|]. replace i with 0 by lia.
    change (Qnat 0) with 0%Q. ring.
Qed.

Lemma linspace_last (a b : Q) (n : nat) :
  2 ≤ n → last (linspace a b n true) = Some b.
Proof.
  intros Hn. rewrite last_lookup, linspace_length. unfold linspace.
  replace (1 <? n) with true by (symmetry; apply Nat.ltb_lt; lia).
  cbn [andb]. unfold set_last, arange.
  destruct (0 <? n - 1); rewrite !length_map, length_seq;
    apply list_lookup_insert_eq; rewrite !length_map, length_seq; lia.
Qed.

Lemma linspace_head (a b : Q) (n : nat) :
  1 ≤ n → ∃ v, head (linspace a b n true) = Some v ∧ (v == a)%Q.
Proof.
  intros Hn. destruct (linspace_lookup a b n 0) as (v & Hv & Ev); [lia|].
  exists v. split.
  - by rewrite head_lookup.
  - rewrite Ev. unfold lin_point. change (Qnat 0) with 0%Q. ring.
Qed.

(** ** [cumulative_distribution] *)













(** ** Computations on the file system *)

Lemma io_bind_eq {A B} (m : io A) (k : A → io B) (s : fs) :
  (m ≫= k) s = match m s with
               | (Ok a, s') => k a s'
               | (Raise e, s') => (Raise e, s')
               end.
Proof. reflexivity. Qed.

Lemma mapM_io_cons {A B} (f : A → io B) (a : A) (l : list A) (s : fs) :
  mapM f (a :: l) s =
  match f a s with
  | (Ok b, s') => match mapM f l s' with
                  | (Ok bs, s'') => (Ok (b :: bs), s'')
                  | (Raise e, s'') => (Raise e, s'')
                  end
  | (Raise e, s') => (Raise e, s')
  end.
Proof. reflexivity. Qed.

(** ** Paths and directory entries *)

Lemma strip_prefix_app (p s : string) : strip_prefix p (p +:+ s) = Some s.
Proof.
  induction p as [|c p IH]; [by destruct s|].
  change (String c p +:+ s) with (String c (p +:+ s)).
  cbn -[Ascii.eqb]. by rewrite Ascii.eqb_refl.
Qed.

Lemma contains_prefix (needle hay : string) :
  String.prefix needle hay = true → contains needle hay = true.
Proof. intros H. destruct hay; cbn in *; by rewrite H. Qed.

Lemma string_app_assoc (a b c : string) : (a +:+ b) +:+ c = a +:+ (b +:+ c).
Proof.
  induction a as [|x a IH]; [done|].
  change (String x ((a +:+ b) +:+ c) = String x (a +:+ (b +:+ c))). by rewrite IH.
Qed.

Lemma string_app_empty_r (a : string) : a +:+ EmptyString = a.
Proof.
  induction a as [|x a IH]; [done|].
  change (String x (a +:+ EmptyString) = String x a). by rewrite IH.
Qed.

Lemma path_join_entry (dir name : string) :
  contains "/" name = false →
  os.path_join dir name = os.path_join dir EmptyString +:+ name.
Proof.
  intros H. unfold os.path_join.
  destruct (String.prefix "/" name) eqn:E.
  { apply contains_prefix in E. congruence. }
  cbn [String.prefix].
  destruct (String.eqb dir EmptyString || endswith_sep dir).
  - by rewrite string_app_empty_r.
  - by rewrite !string_app_assoc.
Qed.

Lemma entry_name_join (dir name : string) :
  name ≠ EmptyString → contains "/" name = false →
  os.entry_name dir (os.path_join dir name) = Some name.
Proof.
  intros Hne Hc. unfold os.entry_name.
  rewrite (path_join_entry _ _ Hc), strip_prefix_app, Hc.
  destruct (String.eqb_spec name EmptyString); [done|]. reflexivity.
Qed.

Lemma entries_In (dir name : string) (s : fs) :
  name ≠ EmptyString → contains "/" name = false →
  is_Some (s !! os.path_join dir name) → name ∈ os.entries dir s.
Proof.
  intros Hne Hc [nd Hnd]. unfold os.entries.
  apply list_elem_of_omap. exists (os.path_join dir name).
  split; [|by apply entry_name_join].
  rewrite map_fmap. apply list_elem_of_fmap. exists (os.path_join dir name, nd).
  split; [done|]. by apply elem_of_map_to_list.
Qed.

(** ** [save_networks] *)

(** C8: when the target directory exists and already has an entry,
    [save_networks] raises the exception "The directory is not empty."
    and the file system is left as it was. *)
Theorem save_networks_not_empty (networks : list G_coords) (path name : string)
    (s : fs) :
  s !! path = Some Dir →
  name ≠ EmptyString → contains "/" name = false →
  is_Some (s !! os.path_join path name) →
  save_networks networks path s =
  (Raise (Exception "The directory is not empty."), s).
Proof.
  intros Hdir Hne Hc Hfile. unfold save_networks.
  rewrite io_bind_eq. unfold os.path_exists at 1.
  rewrite bool_decide_eq_true_2 by (by rewrite Hdir).
  rewrite io_bind_eq. cbn [negb]. rewrite io_bind_eq.
  unfold os.listdir at 1. rewrite Hdir.
  pose proof (entries_In path name s Hne Hc Hfile) as Hin.
  destruct (os.entries path s) as [|n ns]; [by apply elem_of_nil in Hin|].
  reflexivity.
Qed.

Lemma save_networks_not_empty_witness :
  let s : fs := <["d/notes.txt" := File (EdgeList [])]> (<["d" := Dir]> ∅) in
  save_networks [([(0, [1]); (1, [])], [[1 # 2; 1 # 3]; [1; 2]]%Q)] "d" s =
  (Raise (Exception "The directory is not empty."), s).
Proof.
  intros s.
  apply (save_networks_not_empty _ "d" "notes.txt" s); [reflexivity|done|reflexivity|].
  by eexists.
Defined.

(** ** Reading *)

Lemma reads_only_bind {A B} (m : io A) (k : A → io B) :
  reads_only m → (∀ a, reads_only (k a)) → reads_only (m ≫= k).
Proof.
  intros Hm Hk s. rewrite io_bind_eq. specialize (Hm s).
  destruct (m s) as [[a|e] s']; cbn in Hm; subst; [apply Hk|done].
Qed.

Lemma reads_only_ret {A} (a : A) : reads_only (mret a).
Proof. done. Qed.

Lemma reads_only_raise {A} (e : exn) : reads_only (@raise A e).
Proof. done. Qed.

Lemma reads_only_lift {A} (r : result A) : reads_only (lift r).
Proof. done. Qed.

Lemma reads_only_read_file (p : string) : reads_only (read_file p).
Proof. intros s. unfold read_file. by repeat case_match. Qed.

Lemma get_G_coords_fs (e c : string) (s : fs) : snd (get_G_coords e c s) = s.
Proof.
  revert s. change (reads_only (get_G_coords e c)). unfold get_G_coords.
  apply reads_only_bind.
  { unfold pdio.read_csv. apply reads_only_bind; [apply reads_only_read_file|].
    intros [[|uv lines]|columns];
      [apply reads_only_raise|apply reads_only_ret|apply reads_only_ret]. }
  intros df. apply reads_only_bind; [apply reads_only_lift|].
  intros coords. apply reads_only_bind; [|intros G; apply reads_only_ret].
  unfold nx.read_edgelist. apply reads_only_bind; [apply reads_only_read_file|].
  intros [lines|columns]; [apply reads_only_ret|].
  destruct (length columns <? 2); [apply reads_only_ret|apply reads_only_raise].
Qed.

Lemma mapM_get_G_coords (s : fs) (pairs : list (string * string)) (nets : list G_coords) :
  Forall2 (fun ec net => fst (get_G_coords (fst ec) (snd ec) s) = Ok net) pairs nets →
  mapM (fun ec => get_G_coords (fst ec) (snd ec)) pairs s = (Ok nets, s).
Proof.
  induction 1 as [|ec net pairs nets H _ IH]; [reflexivity|].
  rewrite mapM_io_cons.
  pose proof (get_G_coords_fs (fst ec) (snd ec) s) as Hs.
  destruct (get_G_coords _ _ s) as [r s']. cbn in H, Hs. subst. by rewrite IH.
Qed.

(** C9, a directory with two edge lists and one coordinate table:
    [get_networks] raises nothing and returns the one network of the
    first pair. *)
Lemma get_networks_mismatch :
  fst (get_networks "d" fs_mismatch) =
    Ok [([(0, [1]); (1, [])], [[1 # 2; 1 # 3]; [1; 2]]%Q)] ∧
  ¬ batch_read_claim "d" fs_mismatch.
Proof.
  assert (fst (get_networks "d" fs_mismatch) =
            Ok [([(0, [1]); (1, [])], [[1 # 2; 1 # 3]; [1; 2]]%Q)]) as E
    by (vm_compute; reflexivity).
  split; [exact E|]. intros H. destruct H as [e He].
  - vm_compute. discriminate.
  - rewrite E in He. discriminate.
Qed.

(** C9, amended: [get_networks] does not compare the lengths of the two
    sorted lists of file names; it pairs them position by position up to
    the shorter one and, when every pair reads, returns one network per
    pair, [min(len(edgelist_paths), len(coords_paths))] networks. *)
Theorem get_networks_pairs (path : string) (s : fs) (nets : list G_coords) :
  s !! path = Some Dir →
  Forall2 (fun ec net => fst (get_G_coords (fst ec) (snd ec) s) = Ok net)
          (zip (paths_with "edgelist" path (os.entries path s))
               (paths_with "coords" path (os.entries path s))) nets →
  get_networks path s = (Ok nets, s) ∧
  length nets = Nat.min (length (paths_with "edgelist" path (os.entries path s)))
                        (length (paths_with "coords" path (os.entries path s))).
Proof.
  intros Hdir Hall. split.
  - unfold get_networks. rewrite io_bind_eq. unfold os.listdir at 1. rewrite Hdir.
    rewrite io_bind_eq. unfold os.listdir at 1. rewrite Hdir.
    by apply mapM_get_G_coords.
  - apply Forall2_length in Hall. rewrite <- Hall. apply length_zip_with.
Qed.

Lemma get_networks_pairs_witness :
  get_networks "d" fs_mismatch =
    (Ok [([(0, [1]); (1, [])], [[1 # 2; 1 # 3]; [1; 2]]%Q)], fs_mismatch) ∧
  length [([(0, [1]); (1, [])], [[1 # 2; 1 # 3]; [1; 2]]%Q)] =
    Nat.min (length (paths_with "edgelist" "d" (os.entries "d" fs_mismatch)))
            (length (paths_with "coords" "d" (os.entries "d" fs_mismatch))).
Proof.
  apply (get_networks_pairs "d" fs_mismatch); [reflexivity|].
  vm_compute zip. constructor; [|constructor]. vm_compute. reflexivity.
Defined.

(** ** Graphs *)

Lemma edges_In (G : nx.DiGraph) (a b : nat) :
  In (a, b) (nx.edges G) ↔ ∃ vs, In (a, vs) G ∧ In b vs.
Proof.
  unfold nx.edges. rewrite in_flat_map. split.
  - intros ([u vs] & HG & H). cbn in H. apply in_map_iff in H as (w & [= <- <-] & Hw).
    by exists vs.
  - intros (vs & HG & Hb). exists (a, vs). split; [done|]. cbn.
    apply in_map_iff. by exists b.
Qed.

Lemma has_node_In (G : nx.DiGraph) (n : nat) :
  nx.has_node G n = true ↔ In n (nx.nodes G).
Proof.
  unfold nx.has_node, nx.nodes. rewrite existsb_exists, in_map_iff. split.
  - intros (e & He & Hn%Nat.eqb_eq). by exists e.
  - intros (e & Hn & He). exists e. split; [done|]. by apply Nat.eqb_eq.
Qed.

Lemma nodes_add_node (n : nat) (G : nx.DiGraph) (m : nat) :
  In m (nx.nodes (nx.add_node n G)) ↔ m = n ∨ In m (nx.nodes G).
Proof.
  unfold nx.add_node. destruct (nx.has_node G n) eqn:E.
  - apply has_node_In in E. split; [tauto|]. intros [->|H]; done.
  - unfold nx.nodes. rewrite map_app, in_app_iff. cbn. split.
    + intros [H|[<-|[]]]; tauto.
    + intros [->|H]; tauto.
Qed.

Lemma NoDup_add_node (n : nat) (G : nx.DiGraph) :
  List.NoDup (nx.nodes G) → List.NoDup (nx.nodes (nx.add_node n G)).
Proof.
  intros H. unfold nx.add_node. destruct (nx.has_node G n) eqn:E; [done|].
  unfold nx.nodes. rewrite map_app. cbn.
  apply NoDup_ListNoDup, NoDup_app. split; [by apply NoDup_ListNoDup|].
  split; [|apply NoDup_singleton].
  intros m Hm ->%list_elem_of_singleton.
  apply list_elem_of_In, has_node_In in Hm. congruence.
Qed.

Lemma edges_add_node (n : nat) (G : nx.DiGraph) :
  nx.edges (nx.add_node n G) = nx.edges G.
Proof.
  unfold nx.add_node. destruct (nx.has_node G n); [done|].
  unfold nx.edges. rewrite flat_map_app. cbn. by rewrite app_nil_r.
Qed.

Lemma nodes_add_succ (u v : nat) (G : nx.DiGraph) :
  nx.nodes (nx.add_succ u v G) = nx.nodes G.
Proof.
  unfold nx.nodes, nx.add_succ. rewrite List.map_map. apply List.map_ext.
  intros e. by destruct (fst e =? u).
Qed.

Lemma edges_add_succ (u v : nat) (G : nx.DiGraph) (a b : nat) :
  In (a, b) (nx.edges (nx.add_succ u v G)) ↔
  In (a, b) (nx.edges G) ∨ (a = u ∧ b = v ∧ In u (nx.nodes G)).
Proof.
  rewrite !edges_In. unfold nx.add_succ, nx.nodes. split.
  - intros (vs & HG & Hb). apply in_map_iff in HG as ([w ws] & E & HG).
    cbn in E. destruct (Nat.eqb_spec w u) as [->|Hne].
    + injection E as Ea Evs. subst a vs.
      destruct (existsb (Nat.eqb v) ws) eqn:Ex.
      * left. by exists ws.
      * apply in_app_iff in Hb as [Hb|[<-|[]]].
        -- left. by exists ws.
        -- right. split; [done|]. split; [done|].
           apply in_map_iff. by exists (u, ws).
    + injection E as Ea Evs. subst a vs. left. by exists ws.
  - intros [(vs & HG & Hb)|(-> & -> & Hu)].
    + destruct (Nat.eqb_spec a u) as [->|Hne].
      * exists (if existsb (Nat.eqb v) vs then vs else vs ++ [v]). split.
        -- apply in_map_iff. exists (u, vs). cbn. by rewrite Nat.eqb_refl.
        -- destruct (existsb (Nat.eqb v) vs); [done|]. apply in_app_iff. by left.
      * exists vs. split; [|done]. apply in_map_iff. exists (a, vs). cbn.
        by destruct (Nat.eqb_spec a u).
    + apply in_map_iff in Hu as ([w ws] & E & HG). cbn in E. subst w.
      exists (if existsb (Nat.eqb v) ws then ws else ws ++ [v]). split.
      * apply in_map_iff. exists (u, ws). cbn. by rewrite Nat.eqb_refl.
      * destruct (existsb (Nat.eqb v) ws) eqn:Ex.
        -- apply existsb_exists in Ex as (x & Hx & ->%Nat.eqb_eq). done.
        -- apply in_app_iff. right. by left.
Qed.

Lemma nodes_add_edge (u v : nat) (G : nx.DiGraph) (m : nat) :
  In m (nx.nodes (nx.add_edge u v G)) ↔ m = u ∨ m = v ∨ In m (nx.nodes G).
Proof.
  unfold nx.add_edge. rewrite nodes_add_succ, !nodes_add_node. tauto.
Qed.

Lemma edges_add_edge (u v : nat) (G : nx.DiGraph) (a b : nat) :
  In (a, b) (nx.edges (nx.add_edge u v G)) ↔ (a, b) = (u, v) ∨ In (a, b) (nx.edges G).
Proof.
  unfold nx.add_edge. rewrite edges_add_succ, !edges_add_node, !nodes_add_node.
  split.
  - intros [H|(-> & -> & _)]; tauto.
  - intros [[= -> ->]|H]; tauto.
Qed.

Lemma NoDup_add_edge (u v : nat) (G : nx.DiGraph) :
  List.NoDup (nx.nodes G) → List.NoDup (nx.nodes (nx.add_edge u v G)).
Proof.
  intros H. unfold nx.add_edge. rewrite nodes_add_succ.
  by do 2 apply NoDup_add_node.
Qed.

(** The graph [read_edgelist] builds from the lines of a file. *)
Lemma read_lines_spec (lines : list (nat * nat)) (G : nx.DiGraph) :
  let G' := fold_left (fun G uv => nx.add_edge (fst uv) (snd uv) G) lines G in
  (∀ a b, In (a, b) (nx.edges G') ↔ In (a, b) lines ∨ In (a, b) (nx.edges G)) ∧
  (∀ m, In m (nx.nodes G') ↔
        (∃ uv, In uv lines ∧ (m = fst uv ∨ m = snd uv)) ∨ In m (nx.nodes G)) ∧
  (List.NoDup (nx.nodes G) → List.NoDup (nx.nodes G')).
Proof.
  revert G. induction lines as [|[u v] lines IH]; intros G; cbn [fold_left In fst snd].
  - split; [tauto|]. split; [|done]. intros m. split; [tauto|].
    intros [(uv & [] & _)|H]; done.
  - destruct (IH (nx.add_edge u v G)) as (IHe & IHn & IHd). split; [|split].
    + intros a b. rewrite IHe, edges_add_edge. split.
      * intros [H|[[= -> ->]|H]]; tauto.
      * intros [[[= -> ->]|H]|H]; tauto.
    + intros m. rewrite IHn, nodes_add_edge. split.
      * intros [(uv & Huv & Hm)|[->|[->|H]]].
        -- left. exists uv. tauto.
        -- left. exists (u, v). cbn. tauto.
        -- left. exists (u, v). cbn. tauto.
        -- tauto.
      * intros [(uv & [<-|Huv] & Hm)|H].
        -- cbn in Hm. tauto.
        -- left. by exists uv.
        -- tauto.
    + intros H. by apply IHd, NoDup_add_edge.
Qed.

Lemma add_nodes_from_spec (ns : list nat) (G : nx.DiGraph) :
  nx.edges (nx.add_nodes_from ns G) = nx.edges G ∧
  (∀ m, In m (nx.nodes (nx.add_nodes_from ns G)) ↔ In m ns ∨ In m (nx.nodes G)) ∧
  (List.NoDup (nx.nodes G) → List.NoDup (nx.nodes (nx.add_nodes_from ns G))).
Proof.
  unfold nx.add_nodes_from. revert G. induction ns as [|n ns IH]; intros G; cbn [fold_left In].
  - split; [done|]. split; [|done]. intros m. tauto.
  - destruct (IH (nx.add_node n G)) as (IHe & IHn & IHd). split; [|split].
    + by rewrite IHe, edges_add_node.
    + intros m. rewrite IHn, nodes_add_node. split; intros H; [|destruct H as [[<-|H]|H]]; try tauto.
      destruct H as [H|[->|H]]; tauto.
    + intros H. by apply IHd, NoDup_add_node.
Qed.

(** ** [save_G_coords] then [get_G_coords] *)

Lemma write_file_Ok (p : string) (c : content) (s : fs) :
  s !! p ≠ Some Dir → write_file p c s = (Ok (), <[p := File c]> s).
Proof. intros H. unfold write_file. by destruct (s !! p) as [[?|]|]. Qed.

Lemma read_file_insert (p : string) (c : content) (s : fs) :
  read_file p (<[p := File c]> s) = (Ok c, <[p := File c]> s).
Proof. unfold read_file. by rewrite lookup_insert_eq. Qed.

Lemma coords_table (coords : list (list Q)) (N : nat) :
  length coords = 2 ∨ length coords = 3 →
  Forall (fun a => length a = N) coords →
  let df := zip (columns_of coords) coords in
  pdio.of_dict df = Ok df ∧
  columns_of df = columns_of coords ∧
  mapM (pdio.column df) (columns_of coords) = Ok coords ∧
  pdio.len df = N.
Proof.
  intros Hlen Hall.
  destruct coords as [|c0 [|c1 [|c2 [|c3 coords]]]]; cbn in Hlen; try lia.
  - apply Forall_cons in Hall as [H0 Hall]. apply Forall_cons in Hall as [H1 _].
    cbn. rewrite H0, H1, Nat.eqb_refl. done.
  - apply Forall_cons in Hall as [H0 Hall]. apply Forall_cons in Hall as [H1 Hall].
    apply Forall_cons in Hall as [H2 _].
    cbn. rewrite H0, H1, H2, Nat.eqb_refl. done.
Qed.

(** C10: a network whose graph has the nodes [0 .. N-1] and whose 2 or 3
    coordinate arrays have length [N], written with [save_G_coords] and
    read back with [get_G_coords], comes back with the same edges, the
    same coordinate arrays and the node set [0 .. N-1], isolated nodes
    included. *)
Theorem save_get_G_coords (G : nx.DiGraph) (coords : list (list Q)) (N : nat)
    (edgelist_path coords_path : string) (s : fs) :
  (∀ n, In n (nx.nodes G) ↔ n < N) →
  (∀ u v, In (u, v) (nx.edges G) → In v (nx.nodes G)) →
  length coords = 2 ∨ length coords = 3 →
  Forall (fun a => length a = N) coords →
  edgelist_path ≠ coords_path →
  s !! edgelist_path ≠ Some Dir → s !! coords_path ≠ Some Dir →
  ∃ s' G',
    save_G_coords (G, coords) edgelist_path coords_path s = (Ok (), s') ∧
    get_G_coords edgelist_path coords_path s' = (Ok (G', coords), s') ∧
    (∀ u v, In (u, v) (nx.edges G') ↔ In (u, v) (nx.edges G)) ∧
    (∀ n, In n (nx.nodes G') ↔ n < N) ∧
    List.NoDup (nx.nodes G').
Proof.
  intros Hnodes Hsucc Hlen Hall Hne He Hc.
  destruct (coords_table coords N Hlen Hall) as (Hdict & Hcols & Hread & HN).
  set (df := zip (columns_of coords) coords) in *.
  set (s1 := <[edgelist_path := File (EdgeList (nx.edges G))]> s).
  set (s2 := <[coords_path := File (Table df)]> s1).
  set (G0 := fold_left (fun G uv => nx.add_edge (fst uv) (snd uv) G) (nx.edges G) []).
  exists s2, (nx.add_nodes_from (seq 0 N) G0).
  destruct (read_lines_spec (nx.edges G) []) as (Hedges & Hnds & Hnd). fold G0 in Hedges, Hnds, Hnd.
  destruct (add_nodes_from_spec (seq 0 N) G0) as (Hae & Han & Had).
  split; [|split; [|split; [|split]]].
  - unfold save_G_coords. cbn [fst snd]. rewrite io_bind_eq.
    unfold nx.write_edgelist. rewrite (write_file_Ok _ _ _ He). fold s1.
    fold (columns_of coords). fold df. rewrite io_bind_eq. unfold lift. rewrite Hdict.
    unfold pdio.to_csv. apply write_file_Ok. unfold s1.
    by rewrite lookup_insert_ne.
  - unfold get_G_coords. rewrite io_bind_eq. unfold pdio.read_csv.
    rewrite io_bind_eq. unfold s2 at 1. rewrite read_file_insert. fold s2.
    cbn [mret io_ret]. fold (columns_of df). rewrite Hcols.
    rewrite io_bind_eq. unfold lift. rewrite Hread. rewrite io_bind_eq.
    unfold nx.read_edgelist. rewrite io_bind_eq. unfold read_file.
    unfold s2 at 1. rewrite lookup_insert_ne by done.
    unfold s1 at 1. rewrite lookup_insert_eq. fold s1. fold s2.
    cbn [mret io_ret]. fold G0. by rewrite HN.
  - intros u v. rewrite Hae, Hedges. cbn. tauto.
  - intros n. rewrite Han, in_seq. split; [|lia].
    intros [H|H]; [lia|]. apply Hnds in H as [(uv & Huv & Hn)|[]].
    destruct uv as [u v]. cbn in Hn. destruct Hn as [->| ->].
    + apply Hnodes. apply edges_In in Huv as (vs & HG & _).
      unfold nx.nodes. apply in_map_iff. by exists (u, vs).
    + apply Hnodes. by apply (Hsucc u).
  - apply Had, Hnd. constructor.
Qed.

Lemma save_get_G_coords_witness :
  ∃ s' G',
    save_G_coords ([(0, [1; 2]); (1, [0]); (2, []); (3, [])],
                   [[1 # 2; 1 # 3; 1 # 4; 1 # 5]; [1; 2; 3; 4]]%Q)
                  "edgelist.txt" "coords.txt" ∅ = (Ok (), s') ∧
    get_G_coords "edgelist.txt" "coords.txt" s' =
      (Ok (G', [[1 # 2; 1 # 3; 1 # 4; 1 # 5]; [1; 2; 3; 4]]%Q), s') ∧
    (∀ u v, In (u, v) (nx.edges G') ↔
            In (u, v) (nx.edges [(0, [1; 2]); (1, [0]); (2, []); (3, [])])) ∧
    (∀ n, In n (nx.nodes G') ↔ n < 4) ∧
    List.NoDup (nx.nodes G').
Proof.
  apply (save_get_G_coords [(0, [1; 2]); (1, [0]); (2, []); (3, [])]
           [[1 # 2; 1 # 3; 1 # 4; 1 # 5]; [1; 2; 3; 4]]%Q 4
           "edgelist.txt" "coords.txt" ∅).
  - intros n. cbn. lia.
  - intros u v. cbn. intros [H|[H|[H|[]]]]; injection H as <- <-; tauto.
  - by left.
  - repeat constructor.
  - done.
  - by rewrite lookup_empty.
  - by rewrite lookup_empty.
Defined.

(** ** Geometric samples and their real values *)

Section pow.
Local Open Scope R_scope.

Lemma pow_lt_mono (x y : R) (n : nat) :
  (0 < n)%nat → 0 <= x → x < y → x ^ n < y ^ n.
Proof.
  intros Hn Hx Hxy. destruct n as [|n]; [lia|]. clear Hn.
  induction n as [|n IH]; [simpl; lra|].
  change (x ^ S (S n)) with (x * x ^ S n). change (y ^ S (S n)) with (y * y ^ S n).
  assert (0 <= x ^ S n) by (by apply pow_le).
  nra.
Qed.

Lemma pow_lt_iff (x y : R) (n : nat) :
  (0 < n)%nat → 0 <= x → 0 <= y → (x < y ↔ x ^ n < y ^ n).
Proof.
  intros Hn Hx Hy. split; [by apply pow_lt_mono|].
  intros H. destruct (Rlt_le_dec x y) as [|Hle]; [done|].
  assert (y ^ n <= x ^ n) by (apply pow_incr; lra). lra.
Qed.

Lemma pow_eq_iff (x y : R) (n : nat) :
  (0 < n)%nat → 0 <= x → 0 <= y → (x = y ↔ x ^ n = y ^ n).
Proof.
  intros Hn Hx Hy. split; [by intros ->|]. intros H.
  destruct (Rtotal_order x y) as [Hlt|[->|Hgt]]; [|done|].
  - apply (pow_lt_mono _ _ n) in Hlt; [lra|done|done].
  - apply (pow_lt_mono _ _ n) in Hgt; [lra|done|done].
Qed.

(** [r^(a/b)], raised to the power [b], is [r^a]. *)
Lemma Rpower_root (r : R) (a : Z) (b : positive) :
  0 < r →
  Rpower r (Q2R (a # b)) ^ Pos.to_nat b = Rpower r (IZR a).
Proof.
  intros Hr. rewrite <- Rpower_pow by apply exp_pos.
  rewrite Rpower_mult. f_equal. unfold Q2R. cbn.
  rewrite INR_IZR_INZ, positive_nat_Z. field.
  apply not_0_IZR. lia.
Qed.

Lemma Rpower_IZR_nonneg (r : R) (a : Z) :
  0 < r → (0 <= a)%Z → Rpower r (IZR a) = r ^ Z.to_nat a.
Proof.
  intros Hr Ha. rewrite <- Rpower_pow by done. f_equal.
  by rewrite INR_IZR_INZ, Z2Nat.id.
Qed.

Lemma Rpower_IZR_neg (r : R) (a : Z) :
  0 < r → (a <= 0)%Z → Rpower r (IZR a) = / r ^ Z.to_nat (- a).
Proof.
  intros Hr Ha. replace (IZR a) with (- IZR (- a)) by (rewrite opp_IZR; lra).
  rewrite Rpower_Ropp, Rpower_IZR_nonneg by (done || lia). done.
Qed.

Lemma IZR_pow_nat (n : nat) (k : Z) :
  (0 <= k)%Z → IZR (Z.of_nat n ^ k) = INR n ^ Z.to_nat k.
Proof.
  intros Hk. rewrite INR_IZR_INZ, pow_IZR. by rewrite Z2Nat.id.
Qed.

End pow.

Lemma geo_compare_eq (p : geo) (d : nat) :
  geo_compare p d = (geo_lhs p ?= geo_rhs p d)%Z.
Proof. reflexivity. Qed.

Section geo_real.
Local Open Scope R_scope.

Lemma geo_val_pos (p : geo) : (0 < geo_start p)%nat → 0 < geo_val p.
Proof.
  intros Hs. unfold geo_val. apply Rmult_lt_0_compat; [by apply lt_0_INR|apply exp_pos].
Qed.

(** [v^b * (start^up * stop^dn) = start^b * stop^up * start^dn] and
    [d^b * (start^up * stop^dn)] is the other side. *)
Lemma geo_cross (p : geo) (d : nat) :
  (0 < geo_start p)%nat → (0 < geo_stop p)%nat →
  ∃ K : R, 0 < K ∧
    geo_val p ^ Pos.to_nat (Qden (geo_exp p)) * K = IZR (geo_lhs p) ∧
    INR d ^ Pos.to_nat (Qden (geo_exp p)) * K = IZR (geo_rhs p d).
Proof.
  intros Hs He. destruct p as [s e [a b]]. cbn in Hs, He.
  unfold geo_val, geo_lhs, geo_rhs. cbn [geo_start geo_stop geo_exp Qnum Qden].
  assert (0 < INR s) as HS by (by apply lt_0_INR).
  assert (0 < INR e) as HE by (by apply lt_0_INR).
  assert (0 < INR e / INR s) as Hr by (by apply Rdiv_lt_0_compat).
  rewrite Rpow_mult_distr, Rpower_root by done.
  rewrite !mult_IZR, !IZR_pow_nat by lia.
  change (Z.to_nat (Z.pos b)) with (Pos.to_nat b).
  set (n := Pos.to_nat b).
  destruct (Z.le_ge_cases 0 a) as [Ha|Ha].
  - rewrite Rpower_IZR_nonneg by done.
    replace (Z.max a 0) with a by lia. replace (Z.max (- a) 0) with 0%Z by lia.
    change (Z.to_nat 0) with 0%nat. set (k := Z.to_nat a).
    exists (INR s ^ k). split; [by apply pow_lt|]. split; [|simpl; ring].
    unfold Rdiv. rewrite Rpow_mult_distr, pow_inv. simpl. field.
    apply pow_nonzero. lra.
  - rewrite Rpower_IZR_neg by done.
    replace (Z.max a 0) with 0%Z by lia. replace (Z.max (- a) 0) with (- a)%Z by lia.
    change (Z.to_nat 0) with 0%nat. set (k := Z.to_nat (- a)).
    exists (INR e ^ k). split; [by apply pow_lt|]. split; [|simpl; ring].
    unfold Rdiv. rewrite Rpow_mult_distr, pow_inv. simpl. field.
    split; apply pow_nonzero; lra.
Qed.

(** [geo_compare] decides the order of the real value and the integer. *)
Lemma geo_compare_spec (p : geo) (d : nat) :
  (0 < geo_start p)%nat → (0 < geo_stop p)%nat →
  match geo_compare p d with
  | Lt => geo_val p < INR d
  | Eq => geo_val p = INR d
  | Gt => INR d < geo_val p
  end.
Proof.
  intros Hs He. destruct (geo_cross p d Hs He) as (K & HK & Hl & Hr).
  pose proof (geo_val_pos p Hs) as Hv. pose proof (pos_INR d) as Hd.
  assert (0 < Pos.to_nat (Qden (geo_exp p)))%nat as Hn by lia.
  rewrite geo_compare_eq.
  destruct (Z.compare_spec (geo_lhs p) (geo_rhs p d)) as [E|E|E].
  - apply (pow_eq_iff _ _ _ Hn); [lra|done|].
    apply (f_equal IZR) in E. rewrite <- Hl, <- Hr in E. nra.
  - apply (pow_lt_iff _ _ _ Hn); [lra|done|].
    apply IZR_lt in E. rewrite <- Hl, <- Hr in E. nra.
  - apply (pow_lt_iff _ _ _ Hn); [done|lra|].
    apply IZR_lt in E. rewrite <- Hl, <- Hr in E. nra.
Qed.

Lemma geo_leb_spec (p : geo) (d : nat) :
  (0 < geo_start p)%nat → (0 < geo_stop p)%nat →
  geo_leb p d = true ↔ geo_val p <= INR d.
Proof.
  intros Hs He. pose proof (geo_compare_spec p d Hs He) as H.
  unfold geo_leb. destruct (geo_compare p d); split; (done || lra).
Qed.


End geo_real.

(** ** [geomspace] *)



Lemma linspace_open_lookup (a b : Q) (n i : nat) :
  i < n →
  ∃ v, linspace a b n false !! i = Some v ∧ (v == a + Qnat i * ((b - a) / Qnat n))%Q.
Proof.
  intros Hi. unfold linspace, arange. cbn [andb].
  replace (0 <? n) with true by (symmetry; apply Nat.ltb_lt; lia).
  rewrite !map_fmap, !list_lookup_fmap, lookup_seq_lt by done. cbn.
  eexists. split; [reflexivity|]. ring.
Qed.







(** ** [log_cumulative_distribution] *)





(** ** [log_binning] *)

Lemma fold_min_seq (d j k : nat) : d ≤ j → fold_right Nat.min d (seq j k) = d.
Proof.
  revert j. induction k as [|k IH]; intros j Hd; [done|].
  cbn [seq fold_right]. rewrite IH by lia. lia.
Qed.

Lemma Series_min_seq (lo k : nat) : pd.Series_min (seq lo (S k)) = Some lo.
Proof. cbn [seq pd.Series_min]. f_equal. apply fold_min_seq. lia. Qed.

Lemma fold_max_seq (d j k : nat) :
  d < j → fold_right Nat.max d (seq j k) = if k =? 0 then d else j + k - 1.
Proof.
  revert j. induction k as [|k IH]; intros j Hd; [done|].
  cbn [seq fold_right]. rewrite IH by lia.
  destruct k; cbn [Nat.eqb]; lia.
Qed.

Lemma Series_max_seq (lo k : nat) : pd.Series_max (seq lo (S k)) = Some (lo + k).
Proof.
  cbn [seq pd.Series_max]. f_equal. rewrite fold_max_seq by lia.
  destruct k; cbn [Nat.eqb]; lia.
Qed.

Lemma combine_map_fst {A B} (f : A → B) (l : list A) :
  map fst (combine l (map f l)) = l.
Proof. induction l as [|a l IH]; [done|]. cbn. by rewrite IH. Qed.












(** The degrees [0, 0]: the domain of [log_binning] is empty and so are
    the two series; [log_cumulative_distribution] samples from 1 to 1. *)
Example degenerate_range_zero :
  log_binning [0; 0] 3 = Ok ([], []) ∧
  ∃ x, log_cumulative_distribution [0; 0] 3 = Ok (x, [0 # 2; 0 # 2; 0 # 2]%Q).
Proof. split; [reflexivity|by eexists]. Qed.

(** ** Grouping by a key *)

Lemma filter_map_comm {A B} (f : A → B) (p : B → bool) (l : list A) :
  List.filter p (map f l) = map f (List.filter (fun a => p (f a)) l).
Proof.
  induction l as [|a l IH]; [done|]. cbn. rewrite IH. by destruct (p (f a)).
Qed.

Lemma omap_filter {A B} (p : A → bool) (g : A → B) (l : list A) :
  omap (fun a => if p a then Some (g a) else None) l = map g (List.filter p l).
Proof.
  induction l as [|a l IH]; [done|]. cbn. rewrite IH. by destruct (p a).
Qed.

Lemma filter_nonempty {A} (p : A → bool) (l : list A) :
  existsb p l = match List.filter p l with [] => false | _ => true end.
Proof.
  induction l as [|a l IH]; [done|]. cbn. destruct (p a); [done|]. by rewrite IH.
Qed.

Lemma Sorted_filter_seq (p : nat → bool) (a n : nat) :
  Sorted le (List.filter p (seq a n)) ∧ Forall (le a) (List.filter p (seq a n)).
Proof.
  revert a. induction n as [|n IH]; intros a; [by split; constructor|].
  destruct (IH (S a)) as [IHs IHf]. cbn [seq List.filter].
  assert (Forall (le a) (List.filter p (seq (S a) n))) as Hf.
  { eapply Forall_impl; [exact IHf|]. intros; lia. }
  destruct (p a); [|done]. split.
  - constructor; [done|]. destruct (List.filter p (seq (S a) n)); constructor.
    by apply Forall_cons in Hf as [? _].
  - by constructor.
Qed.

Lemma NoDup_filter_seq (p : nat → bool) (a n : nat) :
  NoDup (List.filter p (seq a n)).
Proof.
  apply NoDup_ListNoDup, List.NoDup_filter, NoDup_ListNoDup, NoDup_seq.
Qed.

(** The keys of the groups, when every key lies in [1 .. n]. *)
Lemma group_keys_eq (dg : nat → nat) (mk : nat → pd.row) (domain : list nat) (n : nat) :
  (∀ d, pd.bin (mk d) = dg d) →
  (∀ d, In d domain → 1 ≤ dg d ≤ n) →
  pd.group_keys (map mk domain) =
  List.filter (fun j => existsb (fun d => dg d =? j) domain) (seq 1 n).
Proof.
  intros Hbin Hrange. unfold pd.group_keys. rewrite List.map_map.
  apply (Sorted_unique le).
  - apply Sorted_merge_sort. apply _.
  - apply Sorted_filter_seq.
  - rewrite merge_sort_Permutation. apply NoDup_Permutation.
    + apply NoDup_remove_dups.
    + apply NoDup_filter_seq.
    + intros j. rewrite elem_of_remove_dups, !list_elem_of_In, in_map_iff,
        List.filter_In, in_seq, existsb_exists. split.
      * intros (d & <- & Hd). rewrite Hbin. split; [specialize (Hrange d Hd); lia|].
        exists d. split; [done|]. apply Nat.eqb_refl.
      * intros (_ & d & Hd & E%Nat.eqb_eq). exists d. by rewrite Hbin.
Qed.

(** The series of a frame whose rows are built from the domain. *)
Lemma series_groups (dg : nat → nat) (f : nat → Q) (domain : list nat) (n : nat) :
  (∀ d, In d domain → 1 ≤ dg d ≤ n) →
  let rows :=
    omap (fun j => match List.filter (fun d => dg d =? j) domain with
                   | [] => None
                   | m => Some (pd.mean (map Qnat m), pd.mean (map f m))
                   end) (seq 1 n) in
  series (map (fun d => pd.Row d (f d) (dg d)) domain) = (map fst rows, map snd rows).
Proof.
  intros Hrange rows.
  set (M := fun j => List.filter (fun d => dg d =? j) domain).
  set (g := fun j => (pd.mean (map Qnat (M j)), pd.mean (map f (M j)))).
  assert (rows = map g (List.filter (fun j => existsb (fun d => dg d =? j) domain)
                                    (seq 1 n))) as ->.
  { rewrite <- omap_filter. unfold rows. apply list_omap_ext.
    apply Forall2_same_length_lookup_2; [done|]. intros i j j' Hj Hj'.
    assert (j' = j) as -> by congruence.
    rewrite filter_nonempty. fold (M j). unfold g. by destruct (M j). }
  unfold series, pd.groupby_mean.
  rewrite (group_keys_eq dg _ domain n) by done.
  rewrite !List.map_map. cbn [fst snd].
  assert (∀ k, pd.group (map (fun d => pd.Row d (f d) (dg d)) domain) k =
               map (fun d => pd.Row d (f d) (dg d)) (M k)) as Hgroup.
  { intros k. unfold pd.group. by rewrite filter_map_comm. }
  f_equal; apply List.map_ext; intros k; rewrite Hgroup, List.map_map; done.
Qed.

(** ** [log_binning], two bins *)

Lemma length_omap_le {A B} (f : A → option B) (l : list A) :
  length (omap f l) ≤ length l.
Proof. induction l as [|a l IH]; cbn; [done|]. destruct (f a); cbn; lia. Qed.


(** * The sample points in binary64 *)

(** ** Rounding to binary64 *)


Lemma Qred_inject_Z (z : Z) : Qred (inject_Z z) = inject_Z z.
Proof.
  unfold Qred, inject_Z.
  pose proof (Z.ggcd_gcd z 1) as Hg. pose proof (Z.ggcd_correct_divisors z 1) as Hd.
  destruct (Z.ggcd z 1) as [g [a b]]. cbn [fst snd] in *.
  rewrite Z.gcd_1_r in Hg. subst g. destruct Hd as [Ha Hb].
  rewrite Z.mul_1_l in Ha, Hb. by subst a b.
Qed.

Lemma round_pos_int (p : positive) :
  (Zpos p < 2 ^ 53)%Z → f64.round_pos (Zpos p) 1 = inject_Z (Zpos p).
Proof.
  intros Hp. unfold f64.round_pos.
  change (Z.log2 1) with 0%Z. rewrite Z.sub_0_r.
  pose proof (Z.log2_nonneg (Zpos p)) as Hnn.
  assert (Z.log2 (Zpos p) < 53)%Z as Hlt by (by apply Z.log2_lt_pow2).
  destruct (Z.log2_spec (Zpos p)) as [Hlo _]; [done|].
  set (e := Z.log2 (Zpos p)) in *.
  rewrite (Z.max_l e 0), (Z.max_r (- e) 0) by lia.
  rewrite Z.pow_0_r, Z.mul_1_r, Z.mul_1_l.
  assert ((Zpos p <? 2 ^ e)%Z = false) as -> by (apply Z.ltb_ge; lia).
  cbn iota.
  assert (0 <= 52 - e)%Z as Hs by lia.
  rewrite (Z.max_l (52 - e) 0) by exact Hs.
  rewrite (Z.max_r (- (52 - e)) 0) by (clear -Hs; lia).
  rewrite Z.pow_0_r, !Z.mul_1_r.
  assert (0 < 2 ^ (52 - e))%Z as Hpow by (apply Z.pow_pos_nonneg; lia).
  unfold f64.nearest_even. rewrite Z.mod_1_r, Z.div_1_r.
  change (2 * 0 ?= 1)%Z with Lt. cbv iota.
  rewrite <- (Qred_inject_Z (Zpos p)). apply Qred_complete.
  unfold Qeq. cbn [Qnum Qden inject_Z]. rewrite Z2Pos.id by done. ring.
Qed.

Lemma rnd_Qnat (n : nat) : (Z.of_nat n < 2 ^ 53)%Z → f64.rnd (Qnat n) = Qnat n.
Proof.
  intros Hn. unfold f64.rnd, Qnat. rewrite Qred_inject_Z. cbn [Qnum Qden inject_Z].
  destruct (Z.of_nat n) as [|p|p] eqn:E; [done| |lia].
  by apply round_pos_int.
Qed.

Lemma of_nat_exact (n : nat) : (Z.of_nat n < 2 ^ 53)%Z → f64.of_nat n = Qnat n.
Proof. apply rnd_Qnat. Qed.


(** [f64.rnd] against the machine, on the operations of [np.linspace]:
    the quotients [a / b] for [a, b] up to 40, and the sample points
    [i * (30 / 22) + 0] and [i * (7 / 49) + 3]. *)
Example rnd_is_binary64 :
  forallb (fun a => forallb (fun b =>
     is_binary64 (binary64_of_nat a / binary64_of_nat b)%float
                 (f64.rnd (Qnat a / Qnat b)))
     (seq 1 40)) (seq 0 41) = true ∧
  forallb (fun i =>
     is_binary64 (binary64_of_nat i * (30 / 22) + 0)%float
                 (f64.rnd (f64.rnd (Qnat i * f64.rnd (30 / 22)) + 0)))
     (seq 0 23) = true ∧
  forallb (fun i =>
     is_binary64 (binary64_of_nat i * (7 / 49) + 3)%float
                 (f64.rnd (f64.rnd (Qnat i * f64.rnd (7 / 49)) + 3)))
     (seq 0 50) = true.
Proof. repeat split; vm_compute; reflexivity. Qed.

(** ** [linspace] in binary64 *)

Lemma f64_linspace_length (a b : Q) (n : nat) (e : bool) :
  length (f64.linspace a b n e) = n.
Proof.
  unfold f64.linspace, set_last, arange.
  destruct (0 <? (if e then n - 1 else n)); [destruct (Qeq_bool _ 0)|];
    destruct (e && (1 <? n));
    rewrite ?length_insert, !length_map, length_seq; done.
Qed.


Lemma set_last_length {A} (l : list A) (v : A) : length (set_last l v) = length l.
Proof. unfold set_last. apply length_insert. Qed.

Lemma set_last_last {A} (l : list A) (v : A) : l ≠ [] → last (set_last l v) = Some v.
Proof.
  intros Hl. rewrite last_lookup, set_last_length. unfold set_last.
  apply list_lookup_insert_eq. destruct l; [done|cbn; lia].
Qed.

Lemma set_last_lookup {A} (l : list A) (v : A) (i : nat) :
  S i < length l → set_last l v !! i = l !! i.
Proof. intros Hi. unfold set_last. apply list_lookup_insert_ne. lia. Qed.




(** ** [cumulative_distribution] in binary64 *)





(** The sample next to the degree 15 of [0, 15, 29], with 23 sample
    points: exactly it is 15, and one degree exceeds it; in float64 it
    is [11 * (30 / 22)], just below 15, and two degrees exceed it. *)
Example cumulative_distribution_rounding :
  (∃ x y s v, cumulative_distribution [0; 15; 29] 23 = Ok (x, y) ∧
              x !! 11 = Some s ∧ y !! 11 = Some v ∧ (s == 15 ∧ v == 1 # 3)%Q) ∧
  (∃ x y s v, f64.cumulative_distribution [0; 15; 29] 23 = Ok (x, y) ∧
              x !! 11 = Some s ∧ y !! 11 = Some v ∧ (s < 15 ∧ v == 2 # 3)%Q).
Proof.
  split; eexists _, _, _, _; (split; [vm_compute; reflexivity|]);
    (split; [reflexivity|]); (split; [reflexivity|]); by vm_compute.
Qed.

(** ** [geomspace] in binary64 *)

Lemma f64_geomspace_Ok (m : f64.libm) (start stop n : nat) (e : bool) :
  0 < start → 0 < stop →
  ∃ r, f64.geomspace m start stop n e = Ok r ∧
       length r = n ∧
       (1 ≤ n → head r = Some (f64.of_nat start)) ∧
       (2 ≤ n → e = true → last r = Some (f64.of_nat stop)) ∧
       (∀ i t, 1 ≤ i → (e = true → S i < n) →
          f64.linspace (f64.log10 m (f64.of_nat start)) (f64.log10 m (f64.of_nat stop)) n e
            !! i = Some t →
          r !! i = Some (f64.power m 10 t)).
Proof.
  intros Hs He. unfold f64.geomspace.
  replace (start =? 0) with false by (symmetry; apply Nat.eqb_neq; lia).
  replace (stop =? 0) with false by (symmetry; apply Nat.eqb_neq; lia).
  cbn [orb]. eexists. split; [reflexivity|].
  set (L := f64.linspace _ _ n e).
  assert (length L = n) as HL by apply f64_linspace_length.
  unfold f64.logspace. fold L.
  set (r0 := map (f64.power m 10) L).
  assert (length r0 = n) as Hr0 by (unfold r0; by rewrite length_map).
  set (r1 := if 0 <? n then <[0 := f64.of_nat start]> r0 else r0).
  assert (length r1 = n) as Hr1.
  { unfold r1. destruct (0 <? n); by rewrite ?length_insert. }
  assert (1 ≤ n → head r1 = Some (f64.of_nat start)) as Hhead1.
  { intros Hn. unfold r1. replace (0 <? n) with true by (symmetry; apply Nat.ltb_lt; lia).
    rewrite head_lookup. apply list_lookup_insert_eq. lia. }
  assert (∀ i, 1 ≤ i → r1 !! i = r0 !! i) as Hrest1.
  { intros i Hi. unfold r1. destruct (0 <? n); [|done].
    apply list_lookup_insert_ne. lia. }
  split; [|split; [|split]].
  - destruct ((1 <? n) && e); by rewrite ?set_last_length.
  - intros Hn. destruct ((1 <? n) && e) eqn:E; [|by apply Hhead1].
    apply andb_true_iff in E as [E _]. apply Nat.ltb_lt in E.
    rewrite head_lookup, set_last_lookup by lia. rewrite <- head_lookup. by apply Hhead1.
  - intros Hn ->. replace (1 <? n) with true by (symmetry; apply Nat.ltb_lt; lia).
    cbn [andb]. apply set_last_last. intros E. rewrite E in Hr1. cbn in Hr1. lia.
  - intros i t Hi Hend Ht.
    assert (r1 !! i = Some (f64.power m 10 t)) as H1.
    { rewrite Hrest1 by done. unfold r0. by rewrite map_fmap, list_lookup_fmap, Ht. }
    destruct ((1 <? n) && e) eqn:E; [|done].
    apply andb_true_iff in E as [_ ->]. rewrite set_last_lookup; [done|].
    rewrite Hr1. by apply Hend.
Qed.

(** ** [log_cumulative_distribution] in binary64 *)



(** ** [digitize] in binary64 *)

Lemma nondecreasing_lookup (bs : list Q) (i i' : nat) (b b' : Q) :
  f64.nondecreasing bs = true → i ≤ i' →
  bs !! i = Some b → bs !! i' = Some b' → (b <= b')%Q.
Proof.
  revert i i' b b'. induction bs as [|b0 bs IH]; intros i i' b b' Hs Hi Hb Hb'; [done|].
  assert (f64.nondecreasing bs = true) as Hs'.
  { destruct bs as [|c bs]; [done|]. cbn in Hs. by apply andb_true_iff in Hs as [_ ?]. }
  assert (∀ k c, bs !! k = Some c → (b0 <= c)%Q) as Hfirst.
  { intros k c Hc. destruct bs as [|c0 bs]; [done|].
    cbn in Hs. apply andb_true_iff in Hs as [H0 _]. apply Qle_bool_iff in H0.
    eapply Qle_trans; [exact H0|]. apply (IH 0 k c0 c); [done|lia|done|done]. }
  destruct i as [|i], i' as [|i']; cbn in Hb, Hb'.
  - injection Hb as <-. injection Hb' as <-. apply Qle_refl.
  - injection Hb as <-. by apply (Hfirst i').
  - lia.
  - apply (IH i i' b b'); [done|lia|done|done].
Qed.

Lemma searchsorted_right_le (v : Q) (bs : list Q) :
  f64.searchsorted_right bs v ≤ length bs.
Proof. induction bs as [|b bs IH]; cbn; [done|]. destruct (Qle_bool b v); lia. Qed.

Lemma searchsorted_right_prefix (v : Q) (bs : list Q) (i : nat) (b : Q) :
  i < f64.searchsorted_right bs v → bs !! i = Some b → Qle_bool b v = true.
Proof.
  revert i. induction bs as [|b0 bs IH]; intros i; cbn; [lia|].
  destruct (Qle_bool b0 v) eqn:E; [|lia]. destruct i as [|i]; cbn.
  - by intros _ [= <-].
  - intros Hi. apply IH. lia.
Qed.

Lemma searchsorted_right_stop (v : Q) (bs : list Q) (b : Q) :
  bs !! f64.searchsorted_right bs v = Some b → Qle_bool b v = false.
Proof.
  induction bs as [|b0 bs IH]; cbn; [done|].
  destruct (Qle_bool b0 v) eqn:E; cbn; [done|]. by intros [= <-].
Qed.

Lemma searchsorted_right_unique (v : Q) (bs : list Q) (j : nat) :
  j ≤ length bs →
  (∀ i b, i < j → bs !! i = Some b → Qle_bool b v = true) →
  (∀ b, bs !! j = Some b → Qle_bool b v = false) →
  f64.searchsorted_right bs v = j.
Proof.
  intros Hj Hpre Hstop.
  destruct (Nat.lt_trichotomy (f64.searchsorted_right bs v) j) as [Hlt|[E|Hgt]]; [|done|].
  - destruct (lookup_lt_is_Some_2 bs (f64.searchsorted_right bs v)) as [b Hb]; [lia|].
    pose proof (searchsorted_right_stop v bs b Hb) as H. rewrite (Hpre _ _ Hlt Hb) in H.
    discriminate.
  - pose proof (searchsorted_right_le v bs).
    destruct (lookup_lt_is_Some_2 bs j) as [b Hb]; [lia|].
    pose proof (Hstop b Hb) as Hs. rewrite (searchsorted_right_prefix v bs j b Hgt Hb) in Hs.
    discriminate.
Qed.

(** On non-decreasing boundaries the index [np.digitize] gives is the
    number of the bin. *)
Lemma in_float_bin_searchsorted (d : nat) (bs : list Q) (j : nat) :
  f64.nondecreasing bs = true → 1 ≤ j →
  in_float_bin bs j d = (f64.searchsorted_right bs (Qnat d) =? j).
Proof.
  intros Hmono Hj. apply eq_true_iff_eq. rewrite Nat.eqb_eq. unfold in_float_bin.
  rewrite andb_true_iff. split.
  - intros [H1 H2]. destruct (bs !! (j - 1)) as [b1|] eqn:E1; [|done].
    apply searchsorted_right_unique.
    + apply lookup_lt_Some in E1. lia.
    + intros i b Hi Hb. apply Qle_bool_iff. apply Qle_bool_iff in H1.
      eapply Qle_trans; [|exact H1].
      apply (nondecreasing_lookup bs i (j - 1)); [done|lia|done|done].
    + intros b Hb. rewrite Hb in H2. by apply negb_true_iff.
  - intros <-. pose proof (searchsorted_right_le (Qnat d) bs) as Hle.
    destruct (lookup_lt_is_Some_2 bs (f64.searchsorted_right bs (Qnat d) - 1))
      as [b1 Hb1]; [lia|].
    rewrite Hb1. split.
    + apply (searchsorted_right_prefix (Qnat d) bs (f64.searchsorted_right bs (Qnat d) - 1));
        [lia|done].
    + destruct (bs !! f64.searchsorted_right bs (Qnat d)) as [b|] eqn:E; [|done].
      apply negb_true_iff. by apply (searchsorted_right_stop (Qnat d) bs).
Qed.

(** ** [log_binning] in binary64 *)

Lemma zip_float_rows (degrees : list nat) (dg : nat → nat) (domain : list nat) :
  zip_with (fun r b => pd.Row (fst r) (snd r) b)
           (combine domain (map (frequency degrees) domain))
           (map dg domain)
  = map (fun d => pd.Row d (frequency degrees d) (dg d)) domain.
Proof. induction domain as [|d domain IH]; [done|]. cbn. by rewrite IH. Qed.

Lemma f64_log_binning_eq (m : f64.libm) (degrees : list nat) (num dmin dmax : nat)
    (bs : list Q) :
  py.min degrees = Ok dmin → py.max degrees = Ok dmax → 1 ≤ dmax →
  f64.geomspace m (Nat.max 1 dmin) dmax num false = Ok bs →
  f64.log_binning m degrees num =
  (b ← f64.digitize (seq (Nat.max 1 dmin) (dmax + 1 - Nat.max 1 dmin)) bs;
   Ok (series (zip_with (fun r b => pd.Row (fst r) (snd r) b)
                 (combine (seq (Nat.max 1 dmin) (dmax + 1 - Nat.max 1 dmin))
                          (map (frequency degrees)
                               (seq (Nat.max 1 dmin) (dmax + 1 - Nat.max 1 dmin))))
                 b))).
Proof.
  intros Hmin Hmax Hpos Hbs.
  assert (degrees ≠ []) as Hne by (by destruct degrees).
  pose proof (py_min_le_max _ _ _ Hmin Hmax) as Hle.
  assert (dmax = list_max degrees) as Edmax.
  { rewrite (py_max_list_max _ Hne) in Hmax. by injection Hmax. }
  unfold f64.log_binning. rewrite Hmax, result_bind_Ok, Hmin, result_bind_Ok.
  set (lo := Nat.max 1 dmin) in *.
  unfold slice_from, arange. rewrite (bincount_eq _ Hne), <- Edmax.
  rewrite <- Nat.add_1_r, skipn_map, List.map_map, !drop_seq. cbn [Nat.add].
  fold (frequency degrees). replace (S dmax - lo) with (dmax + 1 - lo) by lia.
  set (domain := seq lo (dmax + 1 - lo)).
  unfold pd.DataFrame. rewrite length_map, Nat.eqb_refl, result_bind_Ok.
  rewrite combine_map_fst.
  assert (domain = seq lo (S (dmax - lo))) as Edom by (unfold domain; f_equal; lia).
  assert (pd.Series_min domain = Some lo) as -> by (by rewrite Edom, Series_min_seq).
  assert (pd.Series_max domain = Some dmax) as ->.
  { rewrite Edom, Series_max_seq. f_equal. lia. }
  by rewrite Hbs, result_bind_Ok.
Qed.

(** What [log_binning] computes on non-decreasing boundaries. *)
Lemma f64_log_binning_rows (m : f64.libm) (degrees : list nat) (num dmin dmax : nat)
    (bs : list Q) :
  py.min degrees = Ok dmin → py.max degrees = Ok dmax → 1 ≤ dmax → 1 ≤ num →
  (Z.of_nat dmax < 2 ^ 53)%Z →
  f64.geomspace m (Nat.max 1 dmin) dmax num false = Ok bs →
  f64.nondecreasing bs = true →
  let lo := Nat.max 1 dmin in
  let rows := float_bin_rows degrees bs (seq lo (dmax + 1 - lo)) in
  f64.log_binning m degrees num = Ok (map fst rows, map snd rows) ∧
  length rows ≤ num ∧
  length bs = num ∧
  bs !! 0 = Some (Qnat lo) ∧
  (∀ j t, 1 ≤ j →
     f64.linspace (f64.log10 m (Qnat lo)) (f64.log10 m (Qnat dmax)) num false !! j
       = Some t →
     bs !! j = Some (f64.power m 10 t)).
Proof.
  intros Hmin Hmax Hpos Hnum Hbound Hbs Hmono lo rows.
  pose proof (py_min_le_max _ _ _ Hmin Hmax) as Hle.
  assert (f64.of_nat lo = Qnat lo) as Elo by (apply of_nat_exact; lia).
  assert (f64.of_nat dmax = Qnat dmax) as Ehi by (by apply of_nat_exact).
  destruct (f64_geomspace_Ok m lo dmax num false) as (r & Hr & Hlen & Hhead & _ & Hmid);
    [lia|lia|].
  fold lo in Hbs. assert (r = bs) as -> by congruence.
  rewrite Elo, Ehi in *.
  assert (bs !! 0 = Some (Qnat lo)) as Hfirst.
  { rewrite <- head_lookup. apply Hhead. lia. }
  set (domain := seq lo (dmax + 1 - lo)) in *.
  set (dg := fun d => f64.searchsorted_right bs (Qnat d)).
  assert (f64.digitize domain bs = Ok (map dg domain)) as Hdig.
  { unfold f64.digitize. rewrite Hmono. f_equal. apply map_ext_in.
    intros d Hd. apply in_seq in Hd. unfold dg. f_equal. apply of_nat_exact. lia. }
  assert (∀ d, In d domain → 1 ≤ dg d ≤ num) as Hrange.
  { intros d Hd. apply in_seq in Hd. split.
    - unfold dg. destruct bs as [|b0 bs']; [done|]. injection Hfirst as ->.
      cbn [f64.searchsorted_right].
      assert (Qle_bool (Qnat lo) (Qnat d) = true) as ->; [|lia].
      apply Qle_bool_iff, Qnat_le. lia.
    - rewrite <- Hlen. apply searchsorted_right_le. }
  split; [|split; [|split; [done|split; [done|]]]].
  - rewrite (f64_log_binning_eq m degrees num dmin dmax bs Hmin Hmax Hpos Hbs).
    fold lo domain. rewrite Hdig, result_bind_Ok, zip_float_rows.
    rewrite (series_groups dg (frequency degrees) domain num Hrange). cbv zeta.
    unfold rows, float_bin_rows. rewrite Hlen.
    assert (∀ j, In j (seq 1 num) →
                 List.filter (fun d => dg d =? j) domain =
                 List.filter (in_float_bin bs j) domain) as Hfilter.
    { intros j Hj. apply in_seq in Hj. apply List.filter_ext. intros d.
      symmetry. apply in_float_bin_searchsorted; [done|lia]. }
    do 2 f_equal; f_equal; apply list_omap_ext, Forall2_same_length_lookup_2;
      try done; intros i j j' Hj Hj'; assert (j' = j) as -> by congruence;
      (rewrite Hfilter; [done|]); by eapply list_elem_of_In, list_elem_of_lookup_2.
  - unfold rows, float_bin_rows. etransitivity; [apply length_omap_le|].
    by rewrite length_seq, Hlen.
  - intros j t Hj Ht. by apply (Hmid j t).
Qed.



(** * Further properties *)

(** ** More on [degree_distribution] *)

Lemma Qnat_plus (m n : nat) : (Qnat (m + n) == Qnat m + Qnat n)%Q.
Proof. unfold Qnat. by rewrite Nat2Z.inj_add, inject_Z_plus. Qed.


Lemma list_sum_cons (a : nat) (l : list nat) : list_sum (a :: l) = a + list_sum l.
Proof. reflexivity. Qed.




Lemma list_sum_map_plus {A} (f g : A → nat) (l : list A) :
  list_sum (map (fun a => f a + g a) l) = list_sum (map f l) + list_sum (map g l).
Proof.
  induction l as [|a l IH]; [done|]. cbn [map]. rewrite !list_sum_cons. lia.
Qed.




Lemma Sorted_lt_filter_seq (p : nat → bool) (a n : nat) :
  Sorted lt (List.filter p (seq a n)) ∧ Forall (le a) (List.filter p (seq a n)).
Proof.
  revert a. induction n as [|n IH]; intros a; [by split; constructor|].
  destruct (IH (S a)) as [IHs IHf]. cbn [seq List.filter].
  assert (Forall (le a) (List.filter p (seq (S a) n))) as Hf.
  { eapply Forall_impl; [exact IHf|]. intros; lia. }
  destruct (p a); [|done]. split.
  - constructor; [done|]. destruct (List.filter p (seq (S a) n)); constructor.
    apply Forall_cons in IHf as [? _]. lia.
  - by constructor.
Qed.

(** X2: what a returning [degree_distribution] returns: [k] lists the
    degree values that occur in the input, each once, in strictly
    ascending order, and [rho_k] has one frequency per value, each in
    (0, 1]. *)
Theorem degree_distribution_shape (degrees : list nat) (k : list nat) (rho_k : list Q) :
  degrees ≠ [] → degree_distribution degrees = Ok (k, rho_k) →
  Sorted lt k ∧ (∀ v, In v k ↔ In v degrees) ∧
  length rho_k = length k ∧
  Forall (fun q => 0 < q ∧ q <= 1)%Q rho_k.
Proof.
  intros Hne. rewrite (degree_distribution_eq _ Hne). case_decide as Hlt; [|done].
  intros [= <- <-].
  assert (0 < length degrees) as Hlen by (destruct degrees; [done|cbn; lia]).
  split; [apply Sorted_lt_filter_seq|]. split; [apply support_In|].
  split; [by rewrite length_map|].
  apply Forall_forall. intros q Hq. apply list_elem_of_In, in_map_iff in Hq as (v & <- & Hv).
  apply (proj1 (support_In degrees v)) in Hv.
  apply (proj1 (count_occ_In Nat.eq_dec degrees v)) in Hv.
  assert (0 < count_occ Nat.eq_dec degrees v) as Hc by lia.
  unfold frequency. split.
  - apply Qlt_shift_div_l; [by apply Qnat_pos|]. rewrite Qmult_0_l. by apply Qnat_pos.
  - apply Qle_shift_div_r; [by apply Qnat_pos|]. rewrite Qmult_1_l.
    apply Qnat_le, count_occ_bound.
Qed.

Lemma degree_distribution_shape_witness :
  Sorted lt [1; 2; 3] ∧ (∀ v, In v [1; 2; 3] ↔ In v [1; 1; 2; 3; 3; 3]) ∧
  length [2 # 6; 1 # 6; 3 # 6]%Q = length [1; 2; 3] ∧
  Forall (fun q => 0 < q ∧ q <= 1)%Q [2 # 6; 1 # 6; 3 # 6]%Q.
Proof.
  apply (degree_distribution_shape [1; 1; 2; 3; 3; 3] [1; 2; 3]); [done|reflexivity].
Defined.

(** ** The order of the degrees does not matter *)

Lemma list_max_Permutation (l l' : list nat) : l ≡ₚ l' → list_max l = list_max l'.
Proof.
  intros H. destruct l as [|d l].
  { apply Permutation_nil in H. by subst. }
  assert (l' ≠ []) as Hne' by (intros ->; by apply Permutation_sym, Permutation_nil in H).
  apply Nat.le_antisymm; apply list_max_ge.
  - apply (Permutation_in _ H), list_max_In. done.
  - apply (Permutation_in _ (Permutation_sym H)), list_max_In. done.
Qed.

Lemma count_occ_Permutation (l l' : list nat) (v : nat) :
  l ≡ₚ l' → count_occ Nat.eq_dec l v = count_occ Nat.eq_dec l' v.
Proof. intros H. by apply (Permutation_count_occ Nat.eq_dec). Qed.

Lemma py_max_Permutation (l l' : list nat) : l ≡ₚ l' → py.max l = py.max l'.
Proof.
  intros H. destruct l as [|d l].
  { apply Permutation_nil in H. by subst. }
  assert (l' ≠ []) as Hne' by (intros ->; by apply Permutation_sym, Permutation_nil in H).
  rewrite !py_max_list_max by done. f_equal. by apply list_max_Permutation.
Qed.

Lemma py_min_Permutation (l l' : list nat) : l ≡ₚ l' → py.min l = py.min l'.
Proof.
  intros H. destruct l as [|d l].
  { apply Permutation_nil in H. by subst. }
  assert (l' ≠ []) as Hne' by (intros ->; by apply Permutation_sym, Permutation_nil in H).
  destruct (py_min_Ok (d :: l)) as [m Hm]; [done|].
  destruct (py_min_Ok l' Hne') as [m' Hm'].
  rewrite Hm, Hm'. f_equal.
  apply py_min_spec in Hm as [Hin Hle]. apply py_min_spec in Hm' as [Hin' Hle'].
  apply Nat.le_antisymm.
  - apply Hle, (Permutation_in _ (Permutation_sym H)), Hin'.
  - apply Hle', (Permutation_in _ H), Hin.
Qed.

Lemma bincount_Permutation (l l' : list nat) : l ≡ₚ l' → bincount l = bincount l'.
Proof.
  intros H. destruct l as [|d l].
  { apply Permutation_nil in H. by subst. }
  assert (l' ≠ []) as Hne' by (intros ->; by apply Permutation_sym, Permutation_nil in H).
  rewrite !bincount_eq by done. rewrite (list_max_Permutation _ _ H).
  apply List.map_ext. intros v. by apply count_occ_Permutation.
Qed.

Lemma filter_length_Permutation {A} (f : A → bool) (l l' : list A) :
  l ≡ₚ l' → length (List.filter f l) = length (List.filter f l').
Proof.
  induction 1 as [|a l l' _ IH|a b l|l1 l2 l3 _ IH1 _ IH2]; cbn.
  - done.
  - destruct (f a); cbn; lia.
  - destruct (f a), (f b); cbn; lia.
  - lia.
Qed.

(** X3: the four transforms depend on the multiset of the degrees only:
    two degree sequences that are permutations of each other get the
    same result, the same exception included, whatever the mathematical
    library returns. *)
Theorem distributions_order_invariant (m : f64.libm) (degrees degrees' : list nat)
    (num : nat) :
  degrees ≡ₚ degrees' →
  degree_distribution degrees = degree_distribution degrees' ∧
  f64.log_binning m degrees num = f64.log_binning m degrees' num ∧
  f64.cumulative_distribution degrees num = f64.cumulative_distribution degrees' num ∧
  f64.log_cumulative_distribution m degrees num =
    f64.log_cumulative_distribution m degrees' num.
Proof.
  intros H.
  pose proof (bincount_Permutation _ _ H) as Hbin.
  pose proof (Permutation_length H) as Hlen.
  pose proof (py_min_Permutation _ _ H) as Hmin.
  pose proof (py_max_Permutation _ _ H) as Hmax.
  assert (∀ s, right_prop degrees s = right_prop degrees' s) as Hright.
  { intros s. unfold right_prop. by rewrite Hlen, (filter_length_Permutation _ _ _ H). }
  split; [|split; [|split]].
  - unfold degree_distribution. by rewrite Hbin, Hlen.
  - unfold f64.log_binning. by rewrite Hbin, Hlen, Hmin, Hmax.
  - unfold f64.cumulative_distribution. rewrite Hmin, Hmax.
    destruct (py.min degrees') as [dmin|]; [|done].
    destruct (py.max degrees') as [dmax|]; [|done].
    rewrite !result_bind_Ok. unfold vectorize.
    destruct (f64.linspace _ _ num true) as [|q x]; [done|].
    rewrite !result_bind_Ok. do 2 f_equal. apply List.map_ext, Hright.
  - unfold f64.log_cumulative_distribution. rewrite Hmin, Hmax.
    destruct (py.min degrees') as [dmin|]; [|done].
    destruct (py.max degrees') as [dmax|]; [|done].
    rewrite !result_bind_Ok.
    destruct (f64.geomspace m _ _ num true) as [x|]; [|done].
    rewrite !result_bind_Ok. unfold vectorize. destruct x as [|p x]; [done|].
    rewrite !result_bind_Ok. do 2 f_equal. apply List.map_ext, Hright.
Qed.

Lemma distributions_order_invariant_witness :
  degree_distribution [3; 1; 3; 2; 1; 3] = degree_distribution [1; 1; 2; 3; 3; 3] ∧
  f64.log_binning libm_table [3; 1; 3; 2; 1; 3] 4 =
    f64.log_binning libm_table [1; 1; 2; 3; 3; 3] 4 ∧
  f64.cumulative_distribution [3; 1; 3; 2; 1; 3] 4 =
    f64.cumulative_distribution [1; 1; 2; 3; 3; 3] 4 ∧
  f64.log_cumulative_distribution libm_table [3; 1; 3; 2; 1; 3] 4 =
    f64.log_cumulative_distribution libm_table [1; 1; 2; 3; 3; 3] 4.
Proof.
  apply (distributions_order_invariant libm_table [3; 1; 3; 2; 1; 3] [1; 1; 2; 3; 3; 3] 4).
  apply (Permutation_count_occ Nat.eq_dec). intros v.
  do 4 (destruct v as [|v]; [reflexivity|]). reflexivity.
Defined.

(** ** Empty input and zero bins *)

(** X4: on an empty degree sequence the three binned transforms raise
    [ValueError] (from [min]/[max] of an empty sequence), whatever the
    number of bins. *)
Theorem empty_sequence_rejected (m : f64.libm) (num : nat) :
  f64.log_binning m [] num = Raise ValueError ∧
  f64.cumulative_distribution [] num = Raise ValueError ∧
  f64.log_cumulative_distribution m [] num = Raise ValueError.
Proof. done. Qed.

(** X5: with [n_bins = 0] and a non-empty degree sequence,
    [cumulative_distribution] and [log_cumulative_distribution] raise
    [ValueError]: the array of sample points is empty and
    [np.vectorize] refuses a size 0 input. *)
Theorem zero_bins_rejected (m : f64.libm) (degrees : list nat) :
  degrees ≠ [] →
  f64.cumulative_distribution degrees 0 = Raise ValueError ∧
  f64.log_cumulative_distribution m degrees 0 = Raise ValueError.
Proof.
  intros Hne. destruct (py_min_Ok _ Hne) as [dmin Hmin].
  assert (∃ dmax, py.max degrees = Ok dmax) as [dmax Hmax].
  { destruct degrees; [done|]. by eexists. }
  split.
  - unfold f64.cumulative_distribution. by rewrite Hmin, Hmax.
  - unfold f64.log_cumulative_distribution. rewrite Hmin, Hmax, !result_bind_Ok.
    destruct (f64_geomspace_Ok m (Nat.max 1 dmin) (dmax + 1) 0 true)
      as (r & -> & Hlen & _); [lia|lia|].
    by destruct r.
Qed.

Lemma zero_bins_rejected_witness :
  f64.cumulative_distribution [1; 2] 0 = Raise ValueError ∧
  f64.log_cumulative_distribution libm_table [1; 2] 0 = Raise ValueError.
Proof. by apply (zero_bins_rejected libm_table [1; 2]). Defined.

(** ** Writing and reading one network *)

Lemma save_G_coords_eq (Gc : G_coords) (e c : string) (s : fs) :
  s !! e ≠ Some Dir →
  save_G_coords Gc e c s =
  match pdio.of_dict (zip (columns_of (snd Gc)) (snd Gc)) with
  | Ok df => write_file c (Table df) (<[e := File (EdgeList (nx.edges (fst Gc)))]> s)
  | Raise err => (Raise err, <[e := File (EdgeList (nx.edges (fst Gc)))]> s)
  end.
Proof.
  intros He. unfold save_G_coords. rewrite io_bind_eq.
  unfold nx.write_edgelist. rewrite (write_file_Ok _ _ _ He).
  fold (columns_of (snd Gc)). rewrite io_bind_eq. unfold lift.
  by destruct (pdio.of_dict _).
Qed.

(** X9: [save_G_coords] is not atomic.  When the coordinate arrays
    differ in length, the call raises [ValueError] for the table, and
    the edge list file has been written all the same. *)
Theorem save_G_coords_ragged (G : nx.DiGraph) (c0 c1 : list Q) (rest : list (list Q))
    (edgelist_path coords_path : string) (s : fs) :
  s !! edgelist_path ≠ Some Dir →
  length c1 ≠ length c0 →
  save_G_coords (G, c0 :: c1 :: rest) edgelist_path coords_path s =
  (Raise ValueError, <[edgelist_path := File (EdgeList (nx.edges G))]> s).
Proof.
  intros He Hlen. rewrite (save_G_coords_eq _ _ _ _ He). cbn [fst snd].
  assert (pdio.of_dict (zip (columns_of (c0 :: c1 :: rest)) (c0 :: c1 :: rest))
          = Raise ValueError) as ->; [|done].
  unfold columns_of. destruct (length (c0 :: c1 :: rest) =? 2);
    cbn; by destruct (Nat.eqb_spec (length c1) (length c0)).
Qed.

Lemma save_G_coords_ragged_witness :
  save_G_coords ([(0, [1]); (1, [])], [[1 # 2]; [1; 2]]%Q) "edges.txt" "coords.txt" ∅ =
  (Raise ValueError, <["edges.txt" := File (EdgeList (nx.edges [(0, [1]); (1, [])]))]> ∅).
Proof.
  apply (save_G_coords_ragged [(0, [1]); (1, [])] [1 # 2]%Q [1; 2]%Q []);
    [by rewrite lookup_empty|cbn; lia].
Defined.

Lemma get_G_coords_graph (lines : list (nat * nat)) (df : list (string * list Q))
    (coords : list (list Q)) (edgelist_path coords_path : string) (s : fs) :
  s !! edgelist_path = Some (File (EdgeList lines)) →
  s !! coords_path = Some (File (Table df)) →
  mapM (pdio.column df) (columns_of df) = Ok coords →
  get_G_coords edgelist_path coords_path s =
  (Ok (read_graph lines (pdio.len df), coords), s).
Proof.
  intros He Hc Hcols.
  unfold get_G_coords. rewrite io_bind_eq. unfold pdio.read_csv.
  rewrite io_bind_eq. unfold read_file at 1. rewrite Hc.
  cbn [mret io_ret]. fold (columns_of df).
  rewrite io_bind_eq. unfold lift. rewrite Hcols. rewrite io_bind_eq.
  unfold nx.read_edgelist. rewrite io_bind_eq. unfold read_file. rewrite He.
  cbn [mret io_ret]. done.
Qed.

Lemma read_graph_spec (lines : list (nat * nat)) (rows : nat) :
  (∀ u v, In (u, v) (nx.edges (read_graph lines rows)) ↔ In (u, v) lines) ∧
  (∀ n, In n (nx.nodes (read_graph lines rows)) ↔
        (∃ uv, In uv lines ∧ (n = fst uv ∨ n = snd uv)) ∨ n < rows) ∧
  List.NoDup (nx.nodes (read_graph lines rows)).
Proof.
  unfold read_graph.
  set (G0 := fold_left (fun G uv => nx.add_edge (fst uv) (snd uv) G) lines []).
  destruct (read_lines_spec lines []) as (Hedges & Hnds & Hnd).
  fold G0 in Hedges, Hnds, Hnd.
  destruct (add_nodes_from_spec (seq 0 rows) G0) as (Hae & Han & Had).
  split; [|split].
  - intros u v. rewrite Hae, Hedges. cbn. tauto.
  - intros n. rewrite Han, in_seq, Hnds. cbn. split.
    + intros [H|[H|[]]]; [right; lia|by left].
    + intros [H|H]; [right; by left|left; lia].
  - apply Had, Hnd. constructor.
Qed.

(** X10: what [get_G_coords] makes of an edge list and a table with the
    expected columns, whoever wrote them: the graph has exactly the
    edges of the lines, its nodes are the end points of the lines and
    the row numbers of the table, each once, and the coordinates are the
    columns.  Nothing checks that the node ids stay below the number of
    rows. *)
Theorem get_G_coords_reads (lines : list (nat * nat)) (df : list (string * list Q))
    (coords : list (list Q)) (edgelist_path coords_path : string) (s : fs) :
  s !! edgelist_path = Some (File (EdgeList lines)) →
  s !! coords_path = Some (File (Table df)) →
  mapM (pdio.column df) (columns_of df) = Ok coords →
  ∃ G,
    get_G_coords edgelist_path coords_path s = (Ok (G, coords), s) ∧
    (∀ u v, In (u, v) (nx.edges G) ↔ In (u, v) lines) ∧
    (∀ n, In n (nx.nodes G) ↔
          (∃ uv, In uv lines ∧ (n = fst uv ∨ n = snd uv)) ∨ n < pdio.len df) ∧
    List.NoDup (nx.nodes G).
Proof.
  intros He Hc Hcols. exists (read_graph lines (pdio.len df)).
  split; [by apply get_G_coords_graph|apply read_graph_spec].
Qed.

Lemma get_G_coords_reads_witness :
  ∃ G,
    get_G_coords "d/edgelist_0.txt" "d/coords_0.txt" fs_mismatch =
      (Ok (G, [[1 # 2; 1 # 3]; [1; 2]]%Q), fs_mismatch) ∧
    (∀ u v, In (u, v) (nx.edges G) ↔ In (u, v) [(0, 1)]) ∧
    (∀ n, In n (nx.nodes G) ↔
          (∃ uv, In uv [(0, 1)] ∧ (n = fst uv ∨ n = snd uv)) ∨
          n < pdio.len [("theta", [1 # 2; 1 # 3]); ("radius", [1; 2])]%Q) ∧
    List.NoDup (nx.nodes G).
Proof.
  apply (get_G_coords_reads [(0, 1)] [("theta", [1 # 2; 1 # 3]); ("radius", [1; 2])]%Q);
    reflexivity.
Defined.

(** ** Reading never writes *)

Lemma reads_only_listdir (p : string) : reads_only (os.listdir p).
Proof. intros s. unfold os.listdir. by repeat case_match. Qed.

Lemma reads_only_mapM {A B} (f : A → io B) (l : list A) :
  (∀ a, reads_only (f a)) → reads_only (mapM f l).
Proof.
  intros Hf. induction l as [|a l IH]; [done|]. intros s.
  rewrite mapM_io_cons. specialize (Hf a s).
  destruct (f a s) as [[b|e] s1]; cbn in Hf; subst; [|done].
  specialize (IH s). by destruct (mapM f l s) as [[bs|e] s2].
Qed.

(** X11: [get_G_coords] and [get_networks] leave the file system as
    they found it, whether they return or raise. *)
Theorem reading_leaves_files (path edgelist_path coords_path : string) (s : fs) :
  snd (get_G_coords edgelist_path coords_path s) = s ∧
  snd (get_networks path s) = s.
Proof.
  split; [apply get_G_coords_fs|].
  revert s. change (reads_only (get_networks path)). unfold get_networks.
  apply reads_only_bind; [apply reads_only_listdir|]. intros names.
  apply reads_only_bind; [apply reads_only_listdir|]. intros names'.
  apply reads_only_mapM. intros ec s. apply get_G_coords_fs.
Qed.

(** ** [save_networks] on a path that is a file *)

(** X12: when the target path exists and is a file, [save_networks]
    raises [NotADirectoryError] (from [os.listdir]) and writes
    nothing. *)
Theorem save_networks_on_file (networks : list G_coords) (path : string) (c : content)
    (s : fs) :
  s !! path = Some (File c) →
  save_networks networks path s = (Raise NotADirectoryError, s).
Proof.
  intros Hfile. unfold save_networks.
  rewrite io_bind_eq. unfold os.path_exists at 1.
  rewrite bool_decide_eq_true_2 by (by rewrite Hfile).
  rewrite io_bind_eq. cbn [negb]. rewrite io_bind_eq.
  unfold os.listdir at 1. by rewrite Hfile.
Qed.

Lemma save_networks_on_file_witness :
  save_networks [([(0, [1]); (1, [])], [[1 # 2; 1 # 3]; [1; 2]]%Q)] "d"
                (<["d" := File (EdgeList [])]> ∅) =
  (Raise NotADirectoryError, <["d" := File (EdgeList [])]> ∅).
Proof.
  apply (save_networks_on_file _ "d" (EdgeList [])). apply lookup_insert_eq.
Defined.

(** ** Coordinate tuples of other sizes *)

(** X13: a coordinate tuple of more than three arrays is accepted: the
    arrays after the third are dropped without notice (their length is
    not even checked), and reading back gives the first three. *)
Theorem save_get_extra_arrays (G : nx.DiGraph) (c0 c1 c2 c3 : list Q)
    (rest : list (list Q)) (edgelist_path coords_path : string) (s : fs) :
  length c1 = length c0 → length c2 = length c0 →
  edgelist_path ≠ coords_path →
  s !! edgelist_path ≠ Some Dir → s !! coords_path ≠ Some Dir →
  ∃ s' G',
    save_G_coords (G, c0 :: c1 :: c2 :: c3 :: rest) edgelist_path coords_path s
      = (Ok (), s') ∧
    get_G_coords edgelist_path coords_path s' = (Ok (G', [c0; c1; c2]), s') ∧
    (∀ u v, In (u, v) (nx.edges G') ↔ In (u, v) (nx.edges G)).
Proof.
  intros H1 H2 Hne He Hc.
  set (df := [("theta", c0); ("radius_p", c1); ("radius_m", c2)]).
  set (s1 := <[edgelist_path := File (EdgeList (nx.edges G))]> s).
  set (s2 := <[coords_path := File (Table df)]> s1).
  assert (save_G_coords (G, c0 :: c1 :: c2 :: c3 :: rest) edgelist_path coords_path s
          = (Ok (), s2)) as Hsave.
  { rewrite (save_G_coords_eq _ _ _ _ He). cbn [fst snd].
    assert (pdio.of_dict (zip (columns_of (c0 :: c1 :: c2 :: c3 :: rest))
                              (c0 :: c1 :: c2 :: c3 :: rest)) = Ok df) as ->.
    { unfold columns_of. cbn. by rewrite H1, H2, Nat.eqb_refl. }
    apply write_file_Ok. by rewrite lookup_insert_ne. }
  exists s2, (read_graph (nx.edges G) (pdio.len df)).
  split; [done|split; [|apply read_graph_spec]].
  apply get_G_coords_graph.
  - unfold s2, s1. by rewrite lookup_insert_ne, lookup_insert_eq.
  - unfold s2. by rewrite lookup_insert_eq.
  - reflexivity.
Qed.

Lemma save_get_extra_arrays_witness :
  ∃ s' G',
    save_G_coords ([(0, [1]); (1, [])], [[1; 2]; [3; 4]; [5; 6]; [7]; [8; 9]]%Q)
                  "edges.txt" "coords.txt" ∅ = (Ok (), s') ∧
    get_G_coords "edges.txt" "coords.txt" s' =
      (Ok (G', [[1; 2]; [3; 4]; [5; 6]]%Q), s') ∧
    (∀ u v, In (u, v) (nx.edges G') ↔ In (u, v) (nx.edges [(0, [1]); (1, [])])).
Proof.
  apply (save_get_extra_arrays [(0, [1]); (1, [])] [1; 2]%Q [3; 4]%Q [5; 6]%Q [7]%Q
           [[8; 9]%Q]); [done|done|done|by rewrite lookup_empty|by rewrite lookup_empty].
Defined.

(** X14: a coordinate tuple of one array is written without complaint,
    as the single column [theta], and cannot be read back:
    [get_G_coords] raises [KeyError] for the column [radius_p]. *)
Theorem save_get_single_array (G : nx.DiGraph) (c0 : list Q)
    (edgelist_path coords_path : string) (s : fs) :
  edgelist_path ≠ coords_path →
  s !! edgelist_path ≠ Some Dir → s !! coords_path ≠ Some Dir →
  ∃ s',
    save_G_coords (G, [c0]) edgelist_path coords_path s = (Ok (), s') ∧
    get_G_coords edgelist_path coords_path s' = (Raise KeyError, s').
Proof.
  intros Hne He Hc.
  set (s1 := <[edgelist_path := File (EdgeList (nx.edges G))]> s).
  set (s2 := <[coords_path := File (Table [("theta", c0)])]> s1).
  exists s2. split.
  - rewrite (save_G_coords_eq _ _ _ _ He). cbn [fst snd].
    change (pdio.of_dict (zip (columns_of [c0]) [c0])) with (Ok [("theta", c0)]).
    apply write_file_Ok. by rewrite lookup_insert_ne.
  - unfold get_G_coords. rewrite io_bind_eq. unfold pdio.read_csv.
    rewrite io_bind_eq. unfold s2 at 1. rewrite read_file_insert. fold s2.
    reflexivity.
Qed.

Lemma save_get_single_array_witness :
  ∃ s',
    save_G_coords ([(0, [1]); (1, [])], [[1; 2]%Q]) "edges.txt" "coords.txt" ∅
      = (Ok (), s') ∧
    get_G_coords "edges.txt" "coords.txt" s' = (Raise KeyError, s').
Proof.
  apply (save_get_single_array [(0, [1]); (1, [])] [1; 2]%Q);
    [done|by rewrite lookup_empty|by rewrite lookup_empty].
Defined.

(** ** The files of a collection *)

Lemma string_length_app (a b : string) :
  String.length (a +:+ b) = String.length a + String.length b.
Proof.
  induction a as [|x a IH]; [done|].
  change (String x a +:+ b) with (String x (a +:+ b)). cbn. by rewrite IH.
Qed.

Lemma string_app_inj_r (a b s : string) : a +:+ s = b +:+ s → a = b.
Proof.
  revert b. induction a as [|x a IH]; intros [|y b] H.
  - done.
  - apply (f_equal String.length) in H. rewrite !string_length_app in H. cbn in H. lia.
  - apply (f_equal String.length) in H. rewrite !string_length_app in H. cbn in H. lia.
  - change (String x (a +:+ s) = String y (b +:+ s)) in H. injection H as -> H.
    by rewrite (IH b H).
Qed.









Lemma save_G_coords_Ok (Gc : G_coords) (e c : string) (s : fs) :
  coords_ok Gc → e ≠ c → s !! e ≠ Some Dir → s !! c ≠ Some Dir →
  save_G_coords Gc e c s =
  (Ok (), <[c := File (Table (zip (columns_of (snd Gc)) (snd Gc)))]>
            (<[e := File (EdgeList (nx.edges (fst Gc)))]> s)).
Proof.
  intros [Hlen [N HN]] Hne He Hc. rewrite (save_G_coords_eq _ _ _ _ He).
  destruct (coords_table (snd Gc) N Hlen HN) as (-> & _).
  apply write_file_Ok. by rewrite lookup_insert_ne.
Qed.





(** ** [get_degrees] *)

Lemma deg_func_unknown (G : nx.DiGraph) (deg_type : string) :
  ¬ known_type deg_type → deg_func G deg_type = Raise KeyError.
Proof.
  intros H. unfold deg_func, known_type in *.
  destruct (String.eqb_spec deg_type "all"); [tauto|].
  destruct (String.eqb_spec deg_type "in"); [tauto|].
  destruct (String.eqb_spec deg_type "out"); [tauto|]. done.
Qed.

(** X16: an unknown [deg_type] raises [KeyError] as soon as there is a
    network to look at, and not before: without networks
    [get_degrees] returns the empty list for any [deg_type]. *)
Theorem get_degrees_unknown_type (deg_type : string) (networks : list G_coords) :
  ¬ known_type deg_type →
  get_degrees deg_type networks =
  match networks with
  | [] => Ok []
  | _ => Raise KeyError
  end.
Proof.
  intros H. destruct networks as [|Gc networks]; [done|].
  unfold get_degrees. rewrite mapM_result_cons, (deg_func_unknown _ _ H). done.
Qed.

Lemma get_degrees_unknown_type_witness :
  get_degrees "total" [([(0, [1]); (1, [])], [])] = Raise KeyError ∧
  get_degrees "total" [] = Ok [].
Proof.
  assert (¬ known_type "total") as H by (intros [H|[H|H]]; discriminate).
  split.
  - apply (get_degrees_unknown_type "total" [([(0, [1]); (1, [])], [])] H).
  - apply (get_degrees_unknown_type "total" [] H).
Defined.

Lemma get_degrees_known (deg_type : string) (view : nx.DiGraph → list (nat * nat))
    (networks : list G_coords) :
  (∀ G, deg_func G deg_type = Ok (view G)) →
  get_degrees deg_type networks =
  Ok (concat (map (fun Gc => degrees_of view (fst Gc)) networks)).
Proof.
  intros Hview. unfold get_degrees.
  assert (mapM (fun Gc => view ← deg_func (fst Gc) deg_type; Ok (map snd view)) networks
          = Ok (map (fun Gc => degrees_of view (fst Gc)) networks)) as ->; [|done].
  induction networks as [|Gc networks IH]; [done|].
  rewrite mapM_result_cons, IH, Hview. done.
Qed.

Lemma list_sum_app (l1 l2 : list nat) : list_sum (l1 ++ l2) = list_sum l1 + list_sum l2.
Proof.
  induction l1 as [|a l1 IH]; [done|]. cbn [app]. rewrite !list_sum_cons, IH. lia.
Qed.

Lemma list_sum_concat (ls : list (list nat)) :
  list_sum (concat ls) = list_sum (map list_sum ls).
Proof.
  induction ls as [|l ls IH]; [done|]. cbn [concat map].
  by rewrite list_sum_app, list_sum_cons, IH.
Qed.

Lemma length_concat_map {A} (f : A → list nat) (l : list A) :
  length (concat (map f l)) = list_sum (map (fun a => length (f a)) l).
Proof.
  induction l as [|a l IH]; [done|]. cbn [concat map].
  by rewrite length_app, list_sum_cons, IH.
Qed.

(** Counting pairs row by row or column by column. *)
Lemma count_swap {A B} (P : A → B → bool) (l : list A) (m : list B) :
  list_sum (map (fun a => length (List.filter (P a) m)) l) =
  list_sum (map (fun b => length (List.filter (fun a => P a b) l)) m).
Proof.
  induction l as [|a l IH].
  - cbn. induction m as [|b m IHm]; [done|]. cbn [map]. by rewrite list_sum_cons, <- IHm.
  - cbn [map]. rewrite list_sum_cons, IH. clear IH.
    induction m as [|b m IHm]; [done|].
    cbn [map]. rewrite !list_sum_cons, <- IHm. cbn [List.filter].
    destruct (P a b); cbn [length]; lia.
Qed.

Lemma count_members (vs ns : list nat) :
  List.NoDup vs → List.NoDup ns → (∀ v, In v vs → In v ns) →
  length (List.filter (fun n => existsb (Nat.eqb n) vs) ns) = length vs.
Proof.
  intros Hvs Hns Hsub. apply Permutation_length, NoDup_Permutation.
  - by apply NoDup_ListNoDup, List.NoDup_filter.
  - by apply NoDup_ListNoDup.
  - intros n. rewrite !list_elem_of_In, List.filter_In, existsb_exists. split.
    + intros (_ & v & Hv & ->%Nat.eqb_eq). done.
    + intros Hn. split; [by apply Hsub|]. exists n. split; [done|apply Nat.eqb_refl].
Qed.

Lemma edges_length (G : nx.DiGraph) :
  length (nx.edges G) = list_sum (map nx.out_degree_of G).
Proof.
  unfold nx.edges. induction G as [|e G IH]; [done|].
  cbn [flat_map map]. rewrite length_app, length_map, list_sum_cons, IH. done.
Qed.

(** In a graph, the in-degrees add up to the number of edges. *)
Lemma in_degree_sum (G : nx.DiGraph) :
  digraph_ok G →
  list_sum (degrees_of nx.in_degree G) = length (nx.edges G).
Proof.
  intros [Hnd Hsucc]. rewrite edges_length. unfold degrees_of, nx.in_degree.
  rewrite List.map_map. cbn [snd].
  transitivity (list_sum (map (fun n => length (List.filter
                     (fun e : nat * list nat => existsb (Nat.eqb n) (snd e)) G))
                   (nx.nodes G))).
  { unfold nx.nodes. by rewrite List.map_map. }
  rewrite (count_swap (fun n (e : nat * list nat) => existsb (Nat.eqb n) (snd e))).
  f_equal. apply map_ext_in. intros e He. destruct (Hsucc e He) as [H1 H2].
  by apply count_members.
Qed.

Lemma out_degree_sum (G : nx.DiGraph) :
  list_sum (degrees_of nx.out_degree G) = length (nx.edges G).
Proof.
  rewrite edges_length. unfold degrees_of, nx.out_degree. by rewrite List.map_map.
Qed.

Lemma degree_sum (G : nx.DiGraph) :
  list_sum (degrees_of nx.degree G) =
  list_sum (degrees_of nx.out_degree G) + list_sum (degrees_of nx.in_degree G).
Proof.
  unfold degrees_of, nx.degree, nx.out_degree, nx.in_degree.
  rewrite !List.map_map. cbn [snd]. apply list_sum_map_plus.
Qed.

Lemma degrees_of_length (view : nx.DiGraph → list (nat * nat)) (G : nx.DiGraph) :
  (∀ G, length (view G) = length G) →
  length (degrees_of view G) = length (nx.nodes G).
Proof. intros H. unfold degrees_of, nx.nodes. by rewrite !length_map, H. Qed.

(** X17: the degrees of an ensemble.  For graphs that keep the
    networkx invariant, [get_degrees] returns one degree per node of
    every network; the in-degrees and the out-degrees each add up to
    the number of edges, the total degrees to twice that number. *)
Theorem get_degrees_sums (networks : list G_coords) :
  Forall (fun Gc => digraph_ok (fst Gc)) networks →
  ∃ d_in d_out d_all,
    get_degrees "in" networks = Ok d_in ∧
    get_degrees "out" networks = Ok d_out ∧
    get_degrees "all" networks = Ok d_all ∧
    length d_in = total_nodes networks ∧
    length d_out = total_nodes networks ∧
    length d_all = total_nodes networks ∧
    list_sum d_in = total_edges networks ∧
    list_sum d_out = total_edges networks ∧
    list_sum d_all = 2 * total_edges networks.
Proof.
  intros Hok.
  rewrite (get_degrees_known "in" nx.in_degree) by done.
  rewrite (get_degrees_known "out" nx.out_degree) by done.
  rewrite (get_degrees_known "all" nx.degree) by done.
  eexists _, _, _. do 3 (split; [reflexivity|]).
  unfold total_nodes, total_edges. rewrite !length_concat_map, !list_sum_concat, !List.map_map.
  assert (∀ (f g : G_coords → nat),
            Forall (fun Gc => f Gc = g Gc) networks →
            list_sum (map f networks) = list_sum (map g networks)) as Hext.
  { intros f g H. f_equal. apply map_ext_in. intros Gc HGc.
    by apply (proj1 (List.Forall_forall _ _) H). }
  split; [|split; [|split; [|split; [|split]]]].
  - apply Hext, Forall_forall. intros Gc _. apply degrees_of_length.
    intros G. unfold nx.in_degree. apply length_map.
  - apply Hext, Forall_forall. intros Gc _. apply degrees_of_length.
    intros G. unfold nx.out_degree. apply length_map.
  - apply Hext, Forall_forall. intros Gc _. apply degrees_of_length.
    intros G. unfold nx.degree. apply length_map.
  - apply Hext. eapply Forall_impl; [exact Hok|]. intros Gc HGc. by apply in_degree_sum.
  - apply Hext, Forall_forall. intros Gc _. apply out_degree_sum.
  - transitivity (list_sum (map (fun Gc => length (nx.edges (fst Gc))
                                           + length (nx.edges (fst Gc))) networks)).
    + apply Hext. eapply Forall_impl; [exact Hok|]. intros Gc HGc.
      by rewrite degree_sum, out_degree_sum, in_degree_sum.
    + rewrite list_sum_map_plus. lia.
Qed.

Lemma get_degrees_sums_witness :
  ∃ d_in d_out d_all,
    get_degrees "in" [([(0, [1; 2]); (1, [0]); (2, [])], [])] = Ok d_in ∧
    get_degrees "out" [([(0, [1; 2]); (1, [0]); (2, [])], [])] = Ok d_out ∧
    get_degrees "all" [([(0, [1; 2]); (1, [0]); (2, [])], [])] = Ok d_all ∧
    length d_in = total_nodes [([(0, [1; 2]); (1, [0]); (2, [])], [])] ∧
    length d_out = total_nodes [([(0, [1; 2]); (1, [0]); (2, [])], [])] ∧
    length d_all = total_nodes [([(0, [1; 2]); (1, [0]); (2, [])], [])] ∧
    list_sum d_in = total_edges [([(0, [1; 2]); (1, [0]); (2, [])], [])] ∧
    list_sum d_out = total_edges [([(0, [1; 2]); (1, [0]); (2, [])], [])] ∧
    list_sum d_all = 2 * total_edges [([(0, [1; 2]); (1, [0]); (2, [])], [])].
Proof.
  apply (get_degrees_sums [([(0, [1; 2]); (1, [0]); (2, [])], [])]).
  constructor; [|constructor]. split.
  - cbn. repeat constructor; cbn; intuition lia.
  - intros e He. cbn in He.
    destruct He as [<-|[<-|[<-|[]]]]; cbn; split;
      (repeat constructor; cbn; intuition lia) || (intros v; intuition lia).
Defined.

(** ** From graphs to distributions *)

Lemma filter_length_lt {A} (f : A → bool) (l : list A) (a : A) :
  In a l → f a = false → length (List.filter f l) < length l.
Proof.
  induction l as [|b l IH]; [done|]. intros [->|Hin] Hf; cbn.
  - rewrite Hf. pose proof (List.filter_length_le f l). lia.
  - specialize (IH Hin Hf). destruct (f b); cbn; lia.
Qed.

Lemma in_degree_bound (G : nx.DiGraph) (e : nat * list nat) :
  loop_free G → In e G → nx.in_degree_of G (fst e) < length G.
Proof.
  intros Hloop He. unfold nx.in_degree_of. apply (filter_length_lt _ _ e He).
  apply not_true_iff_false. intros H.
  apply existsb_exists in H as (v & Hv & Heq). apply Nat.eqb_eq in Heq. subst v.
  apply (Hloop (fst e)), edges_In. exists (snd e). by destruct e.
Qed.

Lemma out_degree_bound (G : nx.DiGraph) (e : nat * list nat) :
  digraph_ok G → loop_free G → In e G → nx.out_degree_of e < length G.
Proof.
  intros [Hnd Hsucc] Hloop He. destruct (Hsucc e He) as [H1 H2].
  unfold nx.out_degree_of. rewrite <- (count_members (snd e) (nx.nodes G)) by done.
  replace (length G) with (length (nx.nodes G)) by (unfold nx.nodes; apply length_map).
  apply (filter_length_lt _ _ (fst e)).
  - unfold nx.nodes. apply in_map_iff. by exists e.
  - apply not_true_iff_false. intros H.
    apply existsb_exists in H as (v & Hv & Heq). apply Nat.eqb_eq in Heq. subst v.
    apply (Hloop (fst e)), edges_In. exists (snd e). by destruct e.
Qed.

Lemma concat_bound {A} (f : A → list nat) (size : A → nat) (l : list A) :
  (∀ a d, In a l → In d (f a) → d < size a) →
  (∀ a, In a l → size a = length (f a)) →
  ∀ d, In d (concat (map f l)) → d < length (concat (map f l)).
Proof.
  intros Hd Hsize d Hin. apply in_concat in Hin as (ds & Hds & Hin).
  apply in_map_iff in Hds as (a & <- & Ha).
  specialize (Hd a d Ha Hin). rewrite (Hsize a Ha) in Hd.
  assert (length (f a) ≤ length (concat (map f l))); [|lia].
  clear -Ha. induction l as [|b l IH]; [done|]. cbn [map concat]. rewrite length_app.
  destruct Ha as [->|Ha]; [lia|]. specialize (IH Ha). lia.
Qed.

(** X18: the in-degrees and the out-degrees of loop-free graphs are
    always accepted by [degree_distribution]: a node has fewer
    predecessors, and fewer successors, than its graph has nodes, so no
    degree reaches the length of the sequence. *)
Theorem degree_distribution_of_degrees (deg_type : string) (networks : list G_coords)
    (ds : list nat) :
  deg_type = "in" ∨ deg_type = "out" →
  Forall (fun Gc => digraph_ok (fst Gc) ∧ loop_free (fst Gc)) networks →
  get_degrees deg_type networks = Ok ds → ds ≠ [] →
  ∃ k rho_k, degree_distribution ds = Ok (k, rho_k).
Proof.
  intros Htype Hok Hget Hne.
  assert (∀ d, In d ds → d < length ds) as Hbound.
  { destruct Htype as [-> | ->].
    - rewrite (get_degrees_known "in" nx.in_degree) in Hget by done.
      injection Hget as <-.
      apply (concat_bound _ (fun Gc => length (fst Gc))).
      + intros Gc d HGc Hd. unfold degrees_of, nx.in_degree in Hd.
        rewrite List.map_map in Hd. apply in_map_iff in Hd as (e & <- & He).
        apply in_degree_bound; [|done].
        by apply (proj1 (List.Forall_forall _ _) Hok Gc HGc).
      + intros Gc _. unfold degrees_of, nx.in_degree. by rewrite !length_map.
    - rewrite (get_degrees_known "out" nx.out_degree) in Hget by done.
      injection Hget as <-.
      apply (concat_bound _ (fun Gc => length (fst Gc))).
      + intros Gc d HGc Hd. unfold degrees_of, nx.out_degree in Hd.
        rewrite List.map_map in Hd. apply in_map_iff in Hd as (e & <- & He).
        destruct (proj1 (List.Forall_forall _ _) Hok Gc HGc) as [H1 H2].
        by apply out_degree_bound.
      + intros Gc _. unfold degrees_of, nx.out_degree. by rewrite !length_map. }
  rewrite (degree_distribution_eq _ Hne).
  rewrite decide_True; [by eexists _, _|].
  apply list_max_lt; [done|]. by apply List.Forall_forall.
Qed.

Lemma degree_distribution_of_degrees_witness :
  ∃ k rho_k, degree_distribution [1; 1; 1] = Ok (k, rho_k).
Proof.
  apply (degree_distribution_of_degrees "in" [([(0, [1; 2]); (1, [0]); (2, [])], [])]).
  - by left.
  - constructor; [|constructor]. split; [split|].
    + cbn. repeat constructor; cbn; intuition lia.
    + intros e He. cbn in He.
      destruct He as [<-|[<-|[<-|[]]]]; cbn; split;
        (repeat constructor; cbn; intuition lia) || (intros v; intuition lia).
    + intros n. cbn. intros [H|[H|[H|[]]]]; injection H; lia.
  - reflexivity.
  - done.
Defined.

(** The total degrees can reach the length: two nodes joined by both
    arcs have total degree 2 each. *)
Example degree_distribution_of_total_degrees :
  get_degrees "all" [([(0, [1]); (1, [0])], [])] = Ok [2; 2] ∧
  degree_distribution [2; 2] = Raise IndexError.
Proof. done. Qed.

(** ** Degrees after a round trip *)

Lemma has_edge_In (E : list (nat * nat)) (u v : nat) :
  has_edge E u v = true ↔ In (u, v) E.
Proof.
  unfold has_edge. rewrite existsb_exists. split.
  - intros ([a b] & Hin & H). cbn in H. apply andb_true_iff in H as [H1 H2].
    apply Nat.eqb_eq in H1, H2. by subst.
  - intros H. exists (u, v). split; [done|]. cbn. by rewrite !Nat.eqb_refl.
Qed.

Lemma digraph_ok_add_node (n : nat) (G : nx.DiGraph) :
  digraph_ok G → digraph_ok (nx.add_node n G).
Proof.
  intros [Hnd Hsucc]. split; [by apply NoDup_add_node|].
  intros e He. unfold nx.add_node in He. destruct (nx.has_node G n) eqn:E.
  - destruct (Hsucc e He) as [H1 H2]. split; [done|].
    intros v Hv. apply nodes_add_node. right. by apply H2.
  - apply in_app_iff in He as [He|[<-|[]]].
    + destruct (Hsucc e He) as [H1 H2]. split; [done|].
      intros v Hv. apply nodes_add_node. right. by apply H2.
    + split; [constructor|]. intros v [].
Qed.

Lemma digraph_ok_add_succ (u v : nat) (G : nx.DiGraph) :
  digraph_ok G → In v (nx.nodes G) → digraph_ok (nx.add_succ u v G).
Proof.
  intros [Hnd Hsucc] Hv. split; [by rewrite nodes_add_succ|].
  intros e He. rewrite nodes_add_succ. unfold nx.add_succ in He.
  apply in_map_iff in He as (e0 & <- & He0). destruct (Hsucc e0 He0) as [H1 H2].
  destruct (fst e0 =? u); [|done]. cbn [snd].
  destruct (existsb (Nat.eqb v) (snd e0)) eqn:Ev; [done|]. split.
  - apply NoDup_ListNoDup, NoDup_app. split; [by apply NoDup_ListNoDup|].
    split; [|apply NoDup_singleton].
    intros w Hw ->%list_elem_of_singleton. apply not_true_iff_false in Ev. apply Ev.
    apply existsb_exists. exists v. split; [by apply list_elem_of_In|apply Nat.eqb_refl].
  - intros w Hw. apply in_app_iff in Hw as [Hw|[<-|[]]]; [by apply H2|done].
Qed.

Lemma digraph_ok_add_edge (u v : nat) (G : nx.DiGraph) :
  digraph_ok G → digraph_ok (nx.add_edge u v G).
Proof.
  intros H. unfold nx.add_edge. apply digraph_ok_add_succ.
  - by do 2 apply digraph_ok_add_node.
  - apply nodes_add_node. by left.
Qed.

Lemma digraph_ok_read_graph (lines : list (nat * nat)) (rows : nat) :
  digraph_ok (read_graph lines rows).
Proof.
  unfold read_graph, nx.add_nodes_from.
  assert (∀ G, digraph_ok G →
    digraph_ok (fold_left (fun G uv => nx.add_edge (fst uv) (snd uv) G) lines G)) as H1.
  { induction lines as [|uv lines IH]; intros G HG; [done|]. cbn [fold_left].
    by apply IH, digraph_ok_add_edge. }
  assert (∀ ns G, digraph_ok G →
    digraph_ok (fold_left (fun G n => nx.add_node n G) ns G)) as H2.
  { induction ns as [|n ns IH]; intros G HG; [done|]. cbn [fold_left].
    by apply IH, digraph_ok_add_node. }
  apply H2, H1. split; [constructor|]. intros e [].
Qed.

Lemma entry_unique (G : nx.DiGraph) (k : nat) (vs vs' : list nat) :
  List.NoDup (nx.nodes G) → In (k, vs) G → In (k, vs') G → vs = vs'.
Proof.
  induction G as [|e G IH]; [done|]. cbn [nx.nodes map]. intros Hnd H1 H2.
  apply List.NoDup_cons_iff in Hnd as [Hnotin Hnd].
  assert (∀ ws, In (k, ws) G → In k (nx.nodes G)) as Hk.
  { intros ws Hws. unfold nx.nodes. apply in_map_iff. by exists (k, ws). }
  destruct H1 as [->|H1], H2 as [E|H2].
  - by injection E.
  - cbn in Hnotin. by apply Hk in H2.
  - subst e. cbn in Hnotin. by apply Hk in H1.
  - by apply IH.
Qed.

Lemma succ_spec (G : nx.DiGraph) (e : nat * list nat) (v : nat) :
  List.NoDup (nx.nodes G) → In e G → In v (snd e) ↔ In (fst e, v) (nx.edges G).
Proof.
  intros Hnd He. rewrite edges_In. split.
  - intros Hv. exists (snd e). by destruct e.
  - intros (vs & Hvs & Hv). destruct e as [k ws]. cbn in *.
    by rewrite (entry_unique G k ws vs).
Qed.

(** The degree views, read off the nodes and the edges. *)
Lemma out_degree_count (G : nx.DiGraph) (e : nat * list nat) :
  digraph_ok G → In e G →
  nx.out_degree_of e = out_count (nx.nodes G) (nx.edges G) (fst e).
Proof.
  intros [Hnd Hsucc] He. destruct (Hsucc e He) as [H1 H2].
  unfold nx.out_degree_of, out_count.
  rewrite <- (count_members (snd e) (nx.nodes G)) by done.
  f_equal. apply List.filter_ext. intros v. apply eq_true_iff_eq.
  rewrite has_edge_In, <- (succ_spec G e v Hnd He), existsb_exists. split.
  - intros (w & Hw & ->%Nat.eqb_eq). done.
  - intros Hv. exists v. split; [done|apply Nat.eqb_refl].
Qed.

Lemma in_degree_count (G : nx.DiGraph) (n : nat) :
  digraph_ok G →
  nx.in_degree_of G n = in_count (nx.nodes G) (nx.edges G) n.
Proof.
  intros [Hnd Hsucc]. unfold nx.in_degree_of, in_count, nx.nodes.
  rewrite filter_map_comm, length_map. f_equal. apply List.filter_ext_in.
  intros e He. apply eq_true_iff_eq.
  rewrite has_edge_In, <- (succ_spec G e n Hnd He), existsb_exists. split.
  - intros (w & Hw & ->%Nat.eqb_eq). done.
  - intros Hv. exists n. split; [done|apply Nat.eqb_refl].
Qed.

Lemma counts_Permutation (ns ns' : list nat) (E E' : list (nat * nat)) (n : nat) :
  ns ≡ₚ ns' → (∀ u v, In (u, v) E ↔ In (u, v) E') →
  out_count ns E n = out_count ns' E' n ∧ in_count ns E n = in_count ns' E' n.
Proof.
  intros Hns HE. unfold out_count, in_count.
  rewrite !(filter_length_Permutation _ _ _ Hns).
  split; f_equal; apply List.filter_ext; intros m; apply eq_true_iff_eq;
    rewrite !has_edge_In; apply HE.
Qed.

(** Two graphs with the same nodes and the same edges have the same
    degrees, up to the order of the nodes. *)
Lemma degrees_Permutation (G G' : nx.DiGraph) :
  digraph_ok G → digraph_ok G' →
  (∀ n, In n (nx.nodes G) ↔ In n (nx.nodes G')) →
  (∀ u v, In (u, v) (nx.edges G) ↔ In (u, v) (nx.edges G')) →
  degrees_of nx.out_degree G ≡ₚ degrees_of nx.out_degree G' ∧
  degrees_of nx.in_degree G ≡ₚ degrees_of nx.in_degree G' ∧
  degrees_of nx.degree G ≡ₚ degrees_of nx.degree G'.
Proof.
  intros HG HG' Hnodes Hedges.
  assert (nx.nodes G ≡ₚ nx.nodes G') as Hperm.
  { apply NoDup_Permutation; [apply NoDup_ListNoDup, HG|apply NoDup_ListNoDup, HG'|].
    intros n. rewrite !list_elem_of_In. apply Hnodes. }
  assert (∀ (H : nx.DiGraph), digraph_ok H →
    degrees_of nx.out_degree H = map (out_count (nx.nodes H) (nx.edges H)) (nx.nodes H) ∧
    degrees_of nx.in_degree H = map (in_count (nx.nodes H) (nx.edges H)) (nx.nodes H) ∧
    degrees_of nx.degree H =
      map (fun n => out_count (nx.nodes H) (nx.edges H) n
                    + in_count (nx.nodes H) (nx.edges H) n) (nx.nodes H)) as Hview.
  { intros H HH. unfold degrees_of, nx.out_degree, nx.in_degree, nx.degree, nx.nodes.
    rewrite !List.map_map. cbn [snd]. repeat split; apply map_ext_in; intros e He.
    - by apply out_degree_count.
    - by apply in_degree_count.
    - by rewrite (out_degree_count H e HH He), (in_degree_count H (fst e) HH). }
  destruct (Hview G HG) as (-> & -> & ->). destruct (Hview G' HG') as (-> & -> & ->).
  assert (∀ n, out_count (nx.nodes G) (nx.edges G) n
               = out_count (nx.nodes G') (nx.edges G') n ∧
               in_count (nx.nodes G) (nx.edges G) n
               = in_count (nx.nodes G') (nx.edges G') n) as Hcount.
  { intros n. by apply counts_Permutation. }
  repeat split.
  - rewrite (List.map_ext _ _ (fun n => proj1 (Hcount n))). by apply Permutation_map.
  - rewrite (List.map_ext _ _ (fun n => proj2 (Hcount n))). by apply Permutation_map.
  - rewrite (List.map_ext _ (fun n => out_count (nx.nodes G') (nx.edges G') n
                                      + in_count (nx.nodes G') (nx.edges G') n)).
    + by apply Permutation_map.
    + intros n. destruct (Hcount n) as [-> ->]. done.
Qed.

(** X19: saving a network and reading it back keeps its degrees.  For a
    well-formed digraph on the nodes [0 .. N-1] with two or three
    coordinate arrays of length [N], the degrees [get_degrees] collects
    from the network read back are, for each of the three degree types,
    a rearrangement of the degrees of the network saved: the node order
    may change (nodes come back in the order the edge list mentions
    them), the degree of every node does not. *)
Theorem save_get_degrees (G : nx.DiGraph) (coords : list (list Q)) (N : nat)
    (edgelist_path coords_path deg_type : string) (s : fs) :
  digraph_ok G →
  (∀ n, In n (nx.nodes G) ↔ n < N) →
  length coords = 2 ∨ length coords = 3 →
  Forall (fun a => length a = N) coords →
  edgelist_path ≠ coords_path →
  s !! edgelist_path ≠ Some Dir → s !! coords_path ≠ Some Dir →
  known_type deg_type →
  ∃ s' G' ds ds',
    save_G_coords (G, coords) edgelist_path coords_path s = (Ok (), s') ∧
    get_G_coords edgelist_path coords_path s' = (Ok (G', coords), s') ∧
    get_degrees deg_type [(G, coords)] = Ok ds ∧
    get_degrees deg_type [(G', coords)] = Ok ds' ∧
    ds' ≡ₚ ds.
Proof.
  intros HG Hnodes Hlen Hall Hne He Hc Htype.
  destruct (coords_table coords N Hlen Hall) as (_ & Hcols & Hread & HN).
  set (df := zip (columns_of coords) coords) in *.
  set (s' := <[coords_path := File (Table df)]>
               (<[edgelist_path := File (EdgeList (nx.edges G))]> s)).
  set (G' := read_graph (nx.edges G) (pdio.len df)).
  assert (save_G_coords (G, coords) edgelist_path coords_path s = (Ok (), s')) as Hsave.
  { apply (save_G_coords_Ok (G, coords)); [|done..]. split; [done|by exists N]. }
  assert (get_G_coords edgelist_path coords_path s' = (Ok (G', coords), s')) as Hget.
  { apply get_G_coords_graph.
    - unfold s'. by rewrite lookup_insert_ne, lookup_insert_eq.
    - unfold s'. by rewrite lookup_insert_eq.
    - by rewrite Hcols. }
  destruct (read_graph_spec (nx.edges G) (pdio.len df)) as (Hedges & Hnds & _).
  fold G' in Hedges, Hnds.
  destruct (degrees_Permutation G' G) as (Hout & Hin & Hall').
  - apply digraph_ok_read_graph.
  - done.
  - intros n. rewrite Hnds, HN, Hnodes. split; [|by right].
    intros [([u v] & Huv & Hn)|H]; [|done]. cbn in Hn.
    apply edges_In in Huv as (vs & Hvs & Hv). destruct HG as [_ Hsucc].
    destruct (Hsucc _ Hvs) as [_ Hsub]. apply Hnodes. destruct Hn as [->| ->].
    + unfold nx.nodes. apply in_map_iff. by exists (u, vs).
    + by apply Hsub.
  - done.
  - assert (∀ view, (∀ H, deg_func H deg_type = Ok (view H)) →
                    degrees_of view G' ≡ₚ degrees_of view G →
      ∃ ds ds', get_degrees deg_type [(G, coords)] = Ok ds ∧
                get_degrees deg_type [(G', coords)] = Ok ds' ∧ ds' ≡ₚ ds) as Hview.
    { intros view Hv Hperm. exists (degrees_of view G), (degrees_of view G').
      rewrite !(get_degrees_known deg_type view) by done.
      cbn [map concat fst]. by rewrite !app_nil_r. }
    destruct Htype as [->|[->| ->]].
    + destruct (Hview nx.degree) as (ds & ds' & ?); [done|done|].
      by exists s', G', ds, ds'.
    + destruct (Hview nx.in_degree) as (ds & ds' & ?); [done|done|].
      by exists s', G', ds, ds'.
    + destruct (Hview nx.out_degree) as (ds & ds' & ?); [done|done|].
      by exists s', G', ds, ds'.
Qed.

Lemma save_get_degrees_witness :
  ∃ s' G' ds ds',
    save_G_coords ([(0, [2]); (1, [0; 2]); (2, [])], [[1 # 2; 1 # 3; 1 # 4]; [1; 2; 3]]%Q)
                  "edgelist.txt" "coords.txt" ∅ = (Ok (), s') ∧
    get_G_coords "edgelist.txt" "coords.txt" s' =
      (Ok (G', [[1 # 2; 1 # 3; 1 # 4]; [1; 2; 3]]%Q), s') ∧
    get_degrees "out" [([(0, [2]); (1, [0; 2]); (2, [])],
                        [[1 # 2; 1 # 3; 1 # 4]; [1; 2; 3]]%Q)] = Ok ds ∧
    get_degrees "out" [(G', [[1 # 2; 1 # 3; 1 # 4]; [1; 2; 3]]%Q)] = Ok ds' ∧
    ds' ≡ₚ ds.
Proof.
  apply (save_get_degrees [(0, [2]); (1, [0; 2]); (2, [])]
           [[1 # 2; 1 # 3; 1 # 4]; [1; 2; 3]]%Q 3 "edgelist.txt" "coords.txt" "out" ∅).
  - split; [repeat constructor; cbn; intuition lia|].
    intros e [<-|[<-|[<-|[]]]]; (split; [repeat constructor; cbn; intuition lia|]);
      cbn; intuition lia.
  - intros n. cbn. lia.
  - by left.
  - repeat constructor.
  - done.
  - by rewrite lookup_empty.
  - by rewrite lookup_empty.
  - right. by right.
Defined.

(** ** Writing a collection and reading it back *)











(** *** The entries of a directory *)








(** *** Sorting the paths *)

Lemma filter_all {A} (f : A → bool) (l : list A) :
  (∀ a, In a l → f a = true) → List.filter f l = l.
Proof.
  induction l as [|a l IH]; intros H; [done|]. cbn.
  rewrite (H a) by (by left). f_equal. apply IH. intros b Hb. apply H. by right.
Qed.












#[local] Instance name_le_total : Total name_le.
Proof. intros i j. unfold name_le. apply (total String.le). Qed.

#[local] Instance name_le_trans : Transitive name_le.
Proof. intros i j k. unfold name_le. apply (transitivity (R := String.le)). Qed.

Lemma name_le_antisym (i j : nat) : name_le i j → name_le j i → i = j.
Proof.
  unfold name_le. intros H1 H2.
  pose proof (anti_symm String.le _ _ H1 H2) as E.
  apply string_app_inj_r in E. by apply pretty_nat_inj in E.
Qed.











(** ** The rows of [log_binning] *)

Lemma Qdiv_nonneg (a b : nat) : (0 <= Qnat a / Qnat b)%Q.
Proof.
  unfold Qdiv. apply Qmult_le_0_compat; [apply Qnat_nonneg|].
  apply Qinv_le_0_compat, Qnat_nonneg.
Qed.

Lemma Qsum_bounds (l : list Q) (a b : Q) :
  (∀ q, In q l → a <= q ∧ q <= b)%Q →
  (Qnat (length l) * a <= fold_right Qplus 0 l ∧
   fold_right Qplus 0 l <= Qnat (length l) * b)%Q.
Proof.
  induction l as [|q l IH]; intros H.
  - cbn. change (Qnat 0) with 0%Q. lra.
  - destruct IH as [IH1 IH2]; [intros q' Hq'; apply H; by right|].
    destruct (H q) as [H1 H2]; [by left|].
    cbn [length fold_right]. rewrite Qnat_S. lra.
Qed.

Lemma mean_bounds (l : list Q) (a b : Q) :
  l ≠ [] → (∀ q, In q l → a <= q ∧ q <= b)%Q →
  (a <= pd.mean l ∧ pd.mean l <= b)%Q.
Proof.
  intros Hne H. destruct (Qsum_bounds l a b H) as [H1 H2].
  assert (0 < Qnat (length l))%Q as Hlen.
  { apply Qnat_pos. destruct l; [done|cbn; lia]. }
  unfold pd.mean. split.
  - apply Qle_shift_div_l; [done|]. lra.
  - apply Qle_shift_div_r; [done|]. lra.
Qed.

Lemma frequency_range (degrees : list nat) (d : nat) :
  (0 <= frequency degrees d ∧ frequency degrees d <= 1)%Q.
Proof.
  unfold frequency. split; [apply Qdiv_nonneg|].
  destruct degrees as [|e degrees].
  - cbn. unfold Qdiv. change (Qnat 0) with 0%Q. lra.
  - apply Qle_shift_div_r; [apply Qnat_pos; cbn; lia|]. rewrite Qmult_1_l.
    apply Qnat_le, count_occ_bound.
Qed.

Lemma map_nonempty {A B} (f : A → B) (l : list A) : l ≠ [] → map f l ≠ [].
Proof. by destruct l. Qed.

(** A row of [float_bin_rows] is the row of a non-empty bin. *)
Lemma float_bin_rows_elem (degrees : list nat) (bs : list Q) (domain : list nat)
    (r : Q * Q) :
  r ∈ float_bin_rows degrees bs domain →
  ∃ j m, 1 ≤ j ≤ length bs ∧ m ≠ [] ∧ m = List.filter (in_float_bin bs j) domain ∧
         r = (pd.mean (map Qnat m), pd.mean (map (frequency degrees) m)).
Proof.
  unfold float_bin_rows. intros (j & Hj & Hr)%list_elem_of_omap.
  apply list_elem_of_In, in_seq in Hj.
  destruct (List.filter (in_float_bin bs j) domain) as [|d m] eqn:E; [done|].
  injection Hr as <-. exists j, (d :: m). split; [lia|]. by rewrite E.
Qed.

(** X6: when some degree is positive, [num >= 1] and the boundaries are
    non-decreasing, [log_binning] returns between 1 and [num] rows, as
    many x as y; every x lies between the domain bounds [max(1, min)]
    and [max], every y in [0, 1]. *)
Theorem log_binning_shape (m : f64.libm) (degrees : list nat) (num dmin dmax : nat)
    (bs : list Q) :
  py.min degrees = Ok dmin → py.max degrees = Ok dmax → 1 ≤ dmax → 1 ≤ num →
  (Z.of_nat dmax < 2 ^ 53)%Z →
  f64.geomspace m (Nat.max 1 dmin) dmax num false = Ok bs →
  f64.nondecreasing bs = true →
  ∃ x y,
    f64.log_binning m degrees num = Ok (x, y) ∧
    length x = length y ∧ 1 ≤ length x ≤ num ∧
    Forall (fun v => Qnat (Nat.max 1 dmin) <= v ∧ v <= Qnat dmax)%Q x ∧
    Forall (fun v => 0 <= v ∧ v <= 1)%Q y.
Proof.
  intros Hmin Hmax Hpos Hnum Hbound Hbs Hmono.
  pose proof (py_min_le_max _ _ _ Hmin Hmax) as Hle.
  destruct (f64_log_binning_rows m degrees num dmin dmax bs Hmin Hmax Hpos Hnum Hbound
              Hbs Hmono) as (Hlb & Hrows & Hlen & Hfirst & _).
  set (lo := Nat.max 1 dmin) in *. set (domain := seq lo (dmax + 1 - lo)) in *.
  set (rows := float_bin_rows degrees bs domain) in *.
  eexists _, _. split; [exact Hlb|].
  split; [by rewrite !length_map|]. rewrite length_map.
  assert (∀ r, r ∈ rows →
               (Qnat lo <= fst r ∧ fst r <= Qnat dmax)%Q ∧
               (0 <= snd r ∧ snd r <= 1)%Q) as Hrow.
  { intros r Hr. apply float_bin_rows_elem in Hr as (j & l & _ & Hne & El & ->).
    cbn [fst snd]. split.
    - apply mean_bounds; [by apply map_nonempty|].
      intros q Hq. apply in_map_iff in Hq as (d & <- & Hd).
      rewrite El in Hd. apply List.filter_In in Hd as [Hd _].
      apply in_seq in Hd. split; apply Qnat_le; lia.
    - apply mean_bounds; [by apply map_nonempty|].
      intros q Hq. apply in_map_iff in Hq as (d & <- & _). apply frequency_range. }
  split; [split|split].
  - assert (∃ r, r ∈ rows) as [r Hr]; [|destruct rows; [by apply elem_of_nil in Hr|cbn; lia]].
    set (j := f64.searchsorted_right bs (Qnat lo)).
    assert (1 ≤ j ≤ num) as Hj.
    { split; [|rewrite <- Hlen; apply searchsorted_right_le].
      unfold j. destruct bs as [|b0 bs']; [done|]. injection Hfirst as ->.
      cbn [f64.searchsorted_right].
      assert (Qle_bool (Qnat lo) (Qnat lo) = true) as ->; [|lia].
      apply Qle_bool_iff, Qle_refl. }
    assert (in_float_bin bs j lo = true) as Hin.
    { rewrite in_float_bin_searchsorted; [unfold j; apply Nat.eqb_refl|done|lia]. }
    assert (In lo (List.filter (in_float_bin bs j) domain)) as Hlo.
    { apply List.filter_In. split; [|done]. apply in_seq. lia. }
    destruct (List.filter (in_float_bin bs j) domain) as [|d l] eqn:E; [done|].
    eexists. unfold rows, float_bin_rows. apply list_elem_of_omap. exists j.
    split; [apply list_elem_of_In, in_seq; lia|]. by rewrite E.
  - done.
  - apply Forall_forall. intros v Hv.
    apply list_elem_of_In, in_map_iff in Hv as (r & <- & Hr).
    by apply Hrow, list_elem_of_In.
  - apply Forall_forall. intros v Hv.
    apply list_elem_of_In, in_map_iff in Hv as (r & <- & Hr).
    by apply Hrow, list_elem_of_In.
Qed.

Lemma log_binning_shape_witness :
  ∃ x y,
    f64.log_binning libm_table [1; 5; 10; 100] 2 = Ok (x, y) ∧
    length x = length y ∧ 1 ≤ length x ≤ 2 ∧
    Forall (fun v => Qnat (Nat.max 1 1) <= v ∧ v <= Qnat 100)%Q x ∧
    Forall (fun v => 0 <= v ∧ v <= 1)%Q y.
Proof.
  apply (log_binning_shape libm_table [1; 5; 10; 100] 2 1 100 [1; 10]%Q);
    [reflexivity|reflexivity|lia|lia|reflexivity|reflexivity|reflexivity].
Defined.

Lemma omap_seq_StronglySorted {B} (F : nat → option B) (R : relation B) (a n : nat) :
  (∀ j j' r r', a ≤ j → j < j' → j' < a + n →
                F j = Some r → F j' = Some r' → R r r') →
  StronglySorted R (omap F (seq a n)).
Proof.
  revert a. induction n as [|n IH]; intros a H; [constructor|].
  cbn [seq omap list_omap].
  assert (StronglySorted R (omap F (seq (S a) n))) as Htl.
  { apply IH. intros j j' r r' ? ? ?. apply H; lia. }
  change (StronglySorted R (match F a with
                            | Some r => r :: omap F (seq (S a) n)
                            | None => omap F (seq (S a) n)
                            end)).
  destruct (F a) as [r|] eqn:Ea; [|done].
  constructor; [done|]. apply List.Forall_forall. intros r' Hr'.
  apply list_elem_of_In, list_elem_of_omap in Hr' as (j' & Hj' & Ej').
  apply list_elem_of_In, in_seq in Hj'. apply (H a j'); (done || lia).
Qed.

(** Degree values of an earlier bin are below those of a later bin. *)
Lemma float_bins_ordered (bs : list Q) (j j' d d' : nat) :
  f64.nondecreasing bs = true → 1 ≤ j → j < j' → j' ≤ length bs →
  in_float_bin bs j d = true → in_float_bin bs j' d' = true → d < d'.
Proof.
  intros Hmono Hj Hjj' Hj' Hin Hin'. unfold in_float_bin in Hin, Hin'.
  apply andb_true_iff in Hin as [_ Hin]. apply andb_true_iff in Hin' as [Hin' _].
  destruct (lookup_lt_is_Some_2 bs j) as [b Hb]; [lia|].
  destruct (bs !! (j' - 1)) as [b'|] eqn:Hb'; [|done].
  rewrite Hb in Hin. apply negb_true_iff in Hin. apply Qle_bool_iff in Hin'.
  assert (b <= b')%Q as Hbb' by (apply (nondecreasing_lookup bs j (j' - 1)); (done || lia)).
  apply Qnat_lt_inv. apply Qnot_le_lt. intros Hle.
  apply not_true_iff_false in Hin. apply Hin, Qle_bool_iff.
  eapply Qle_trans; [exact Hbb'|]. by eapply Qle_trans.
Qed.

(** X7: on non-decreasing boundaries the x values [log_binning] returns
    are strictly increasing: the rows come in ascending bin order and
    the bins are disjoint intervals. *)
Theorem log_binning_increasing (m : f64.libm) (degrees : list nat) (num dmin dmax : nat)
    (bs x y : list Q) :
  py.min degrees = Ok dmin → py.max degrees = Ok dmax → 1 ≤ dmax → 1 ≤ num →
  (Z.of_nat dmax < 2 ^ 53)%Z →
  f64.geomspace m (Nat.max 1 dmin) dmax num false = Ok bs →
  f64.nondecreasing bs = true →
  f64.log_binning m degrees num = Ok (x, y) →
  StronglySorted Qlt x.
Proof.
  intros Hmin Hmax Hpos Hnum Hbound Hbs Hmono.
  pose proof (py_min_le_max _ _ _ Hmin Hmax) as Hle.
  destruct (f64_log_binning_rows m degrees num dmin dmax bs Hmin Hmax Hpos Hnum Hbound
              Hbs Hmono) as (-> & _ & Hlen & _).
  intros [= <- _].
  set (lo := Nat.max 1 dmin). set (domain := seq lo (dmax + 1 - lo)).
  rewrite map_fmap.
  apply (StronglySorted_fmap fst (fun r r' => fst r < fst r')%Q Qlt); [done|].
  unfold float_bin_rows.
  apply omap_seq_StronglySorted. intros j j' r r' Hj Hjj' Hj' Er Er'.
  destruct (List.filter (in_float_bin bs j) domain) as [|d0 l0] eqn:El; [done|].
  destruct (List.filter (in_float_bin bs j') domain) as [|d1 l1] eqn:El'; [done|].
  injection Er as <-. injection Er' as <-. cbn [fst].
  set (l := d0 :: l0) in *. set (l' := d1 :: l1) in *.
  assert (l ≠ []) as Hne by (unfold l; discriminate).
  assert (l' ≠ []) as Hne' by (unfold l'; discriminate).
  set (M := list_max l).
  assert (∀ d, In d l → d ≤ M) as HM by (intros d; apply list_max_ge).
  assert (∀ d', In d' l' → M + 1 ≤ d') as HM'.
  { intros d' Hd'. pose proof (list_max_In l Hne) as HMin. fold M in HMin.
    rewrite <- El in HMin. rewrite <- El' in Hd'.
    apply List.filter_In in HMin as [_ HMin]. apply List.filter_In in Hd' as [_ Hd'].
    pose proof (float_bins_ordered bs j j' M d' Hmono Hj Hjj' ltac:(lia) HMin Hd'). lia. }
  destruct (mean_bounds (map Qnat l) 0 (Qnat M)) as [_ H1]; [by apply map_nonempty| |].
  { intros q Hq. apply in_map_iff in Hq as (d & <- & Hd).
    split; [apply Qnat_nonneg|]. by apply Qnat_le, HM. }
  destruct (mean_bounds (map Qnat l') (Qnat (M + 1)) (Qnat dmax)) as [H2 _];
    [by apply map_nonempty| |].
  { intros q Hq. apply in_map_iff in Hq as (d & <- & Hd). split.
    - by apply Qnat_le, HM'.
    - rewrite <- El' in Hd. apply List.filter_In in Hd as [Hd _]. apply in_seq in Hd.
      apply Qnat_le. lia. }
  assert (Qnat M < Qnat (M + 1))%Q by (apply Qnat_lt; lia).
  change (pd.mean (map Qnat l) < pd.mean (map Qnat l'))%Q. lra.
Qed.

Lemma log_binning_increasing_witness :
  StronglySorted Qlt [45 # 9; 5005 # 91]%Q.
Proof.
  apply (log_binning_increasing libm_table [1; 5; 10; 100] 2 1 100 [1; 10]%Q
           [45 # 9; 5005 # 91]%Q
           (map snd (float_bin_rows [1; 5; 10; 100] [1; 10]%Q (seq 1 100))));
    [reflexivity|reflexivity|lia|lia|reflexivity|reflexivity|reflexivity|].
  vm_compute. reflexivity.
Defined.

(** ** [log_binning] without boundaries *)

Lemma remove_dups_const (l : list nat) (k : nat) :
  l ≠ [] → (∀ a, In a l → a = k) → remove_dups l = [k].
Proof.
  induction l as [|a l IH]; [done|]. intros _ H.
  assert (a = k) as -> by (apply H; by left).
  destruct l as [|b l].
  - cbn. destruct (decide_rel elem_of k []) as [Hin|_]; [by apply elem_of_nil in Hin|done].
  - assert (b = k) as -> by (apply H; right; by left).
    cbn [remove_dups]. destruct (decide_rel elem_of k (k :: l)) as [_|Hn].
    + apply IH; [done|]. intros a Ha. apply H. by right.
    + exfalso. apply Hn. by left.
Qed.

(** A frame whose rows all carry the key [k] has one group. *)
Lemma groupby_mean_const (df : list pd.row) (k : nat) :
  df ≠ [] → (∀ r, In r df → pd.bin r = k) →
  pd.groupby_mean df =
  [(k, (pd.mean (map (fun r => Qnat (pd.degree r)) df), pd.mean (map pd.freq df)))].
Proof.
  intros Hne H. unfold pd.groupby_mean, pd.group_keys.
  rewrite (remove_dups_const _ k).
  - cbn [merge_sort map]. change (merge_sort le [k]) with [k]. cbn [map].
    unfold pd.group. rewrite filter_all; [done|].
    intros r Hr. apply Nat.eqb_eq. by apply H.
  - by apply map_nonempty.
  - intros a Ha. apply in_map_iff in Ha as (r & <- & Hr). by apply H.
Qed.

Lemma Qsum_seq (a n : nat) :
  (2 * fold_right Qplus 0 (map Qnat (seq a n))
   == Qnat n * (2 * Qnat a + Qnat n - 1))%Q.
Proof.
  revert a. induction n as [|n IH]; intros a.
  - cbn. change (Qnat 0) with 0%Q. ring.
  - cbn [seq map fold_right]. rewrite Qmult_plus_distr_r, IH, !Qnat_S. ring.
Qed.

(** X8: [num = 0] is not rejected.  When some degree is positive,
    [log_binning(degrees, 0)] returns exactly one row, more than [num]:
    there is no boundary, every value falls in bin 0, and the row holds
    the mean [(lo + hi) / 2] of the whole domain [lo .. hi] and the mean
    of the frequencies over it. *)
Theorem log_binning_zero_bins (m : f64.libm) (degrees : list nat) (dmin dmax : nat) :
  py.min degrees = Ok dmin → py.max degrees = Ok dmax → 1 ≤ dmax →
  ∃ x y,
    f64.log_binning m degrees 0 = Ok ([x], [y]) ∧
    (x == (Qnat (Nat.max 1 dmin) + Qnat dmax) / 2)%Q ∧
    y = pd.mean (map (frequency degrees)
                     (seq (Nat.max 1 dmin) (dmax + 1 - Nat.max 1 dmin))).
Proof.
  intros Hmin Hmax Hpos.
  pose proof (py_min_le_max _ _ _ Hmin Hmax) as Hle.
  assert (f64.geomspace m (Nat.max 1 dmin) dmax 0 false = Ok []) as Hbs.
  { destruct (f64_geomspace_Ok m (Nat.max 1 dmin) dmax 0 false) as (r & -> & Hlen & _);
      [lia|lia|]. by destruct r. }
  rewrite (f64_log_binning_eq m degrees 0 dmin dmax [] Hmin Hmax Hpos Hbs).
  set (lo := Nat.max 1 dmin). set (domain := seq lo (dmax + 1 - lo)).
  assert (f64.digitize domain [] = Ok (map (fun _ => 0) domain)) as -> by reflexivity.
  rewrite result_bind_Ok, zip_float_rows.
  assert (domain ≠ []) as Hne.
  { intros E. apply (f_equal length) in E. unfold domain in E.
    rewrite length_seq in E. cbn in E. lia. }
  unfold series. rewrite (groupby_mean_const _ 0).
  - cbn [map fst snd]. rewrite !List.map_map. cbn [pd.degree pd.freq].
    eexists _, _. split; [reflexivity|]. split; [|reflexivity].
    unfold pd.mean. rewrite length_map.
    pose proof (Qsum_seq lo (dmax + 1 - lo)) as Hsum. fold domain in Hsum.
    assert (length domain = dmax + 1 - lo) as Hlen by apply length_seq.
    rewrite Hlen.
    assert (Qnat (dmax + 1 - lo) == Qnat dmax + 1 - Qnat lo)%Q as En.
    { assert (Qnat (dmax + 1 - lo) + Qnat lo == Qnat dmax + 1)%Q as E; [|lra].
      rewrite <- Qnat_plus. replace (dmax + 1 - lo + lo) with (S dmax) by lia.
      apply Qnat_S. }
    assert (0 < Qnat (dmax + 1 - lo))%Q as Hpos' by (apply Qnat_pos; lia).
    assert (2 * Qnat lo + Qnat (dmax + 1 - lo) - 1 == Qnat lo + Qnat dmax)%Q as E2 by lra.
    rewrite E2 in Hsum.
    assert (fold_right Qplus 0 (map Qnat domain)
            == Qnat (dmax + 1 - lo) * ((Qnat lo + Qnat dmax) / 2))%Q as ->.
    { apply (Qmult_inj_l _ _ 2); [lra|]. rewrite Hsum. field. }
    field. lra.
  - by apply map_nonempty.
  - intros r Hr. apply in_map_iff in Hr as (d & <- & _). done.
Qed.

Lemma log_binning_zero_bins_witness :
  ∃ x y,
    f64.log_binning libm_table [1; 2; 3; 4] 0 = Ok ([x], [y]) ∧
    (x == (Qnat (Nat.max 1 1) + Qnat 4) / 2)%Q ∧
    y = pd.mean (map (frequency [1; 2; 3; 4]) (seq (Nat.max 1 1) (4 + 1 - Nat.max 1 1))).
Proof.
  apply (log_binning_zero_bins libm_table [1; 2; 3; 4] 1 4); [reflexivity|reflexivity|lia].
Defined.
